(** * The RNNoise audio filter of [app/src/main/cpp/native-lib.cpp]

    A shallow embedding of the frame pipeline [process_audio_with_rnnoise]
    and of its sample codec [s16_to_float] / [float_to_s16], together with
    the properties the specification states about them.

    - C [float] is IEEE-754 binary32, modelled by the Standard Library's
      executable specification [SpecFloat] at precision 24 and maximal
      exponent 128 (round to nearest, ties to even).
    - C [int] and [int16_t] values are integers of [Z]; signed overflow and
      out-of-range conversions are undefined behaviour and are modelled as
      such, not as wrap-around.
    - The sample buffer is a list of [Z]; an access outside of it is
      undefined behaviour.
    - The RNNoise model is an external collaborator: the pipeline is
      parameterised by its state type and its frame function. *)

From Stdlib Require Import ZArith Bool List Lia QArith.
From Stdlib Require Import SpecFloat.
From stdpp Require Import base option list.

Open Scope Z_scope.

(** ** IEEE-754 binary32 arithmetic *)

Module F32.

Definition prec : Z := 24.
Definition emax : Z := 128.

Definition float : Type := spec_float.

Definition add : float -> float -> float := SFadd prec emax.
Definition sub : float -> float -> float := SFsub prec emax.
Definition mul : float -> float -> float := SFmul prec emax.
Definition div : float -> float -> float := SFdiv prec emax.
Definition opp : float -> float := SFopp.
Definition abs : float -> float := SFabs.
Definition ltb : float -> float -> bool := SFltb.
Definition leb : float -> float -> bool := SFleb.

(** [static_cast<float>(z)] for an integer [z]. *)
Definition of_Z (z : Z) : float := binary_normalize prec emax z 0 false.

(** The float literals of the source. *)
Definition zero : float := S754_zero false.                  (* 0.0f *)
Definition one : float := Eval vm_compute in of_Z 1.         (* 1.0f *)
Definition c32767 : float := Eval vm_compute in of_Z 32767.  (* 32767.0f *)
Definition c32768 : float := Eval vm_compute in of_Z 32768.  (* 32768.0f *)

Definition is_nan (x : float) : bool :=
  match x with S754_nan => true | _ => false end.

(** Zero or finite non-zero: a number, neither an infinity nor NaN. *)
Definition is_finite (x : float) : bool :=
  match x with S754_zero _ | S754_finite _ _ _ => true | _ => false end.

Definition valid (x : float) : bool := valid_binary prec emax x.

(** The integer nearest to [x] in the direction of zero; infinities and
    NaN have none. *)
Definition truncate (x : float) : option Z :=
  match x with
  | S754_zero _ => Some 0
  | S754_finite s m e => Some (cond_Zopp s (Z.shiftl (Zpos m) e))
  | S754_infinity _ | S754_nan => None
  end.

(** [static_cast<int16_t>(x)]: truncation toward zero; the behaviour is
    undefined ([None]) when the truncated value is not an [int16_t]. *)
Definition to_int16 (x : float) : option Z :=
  z ← truncate x;
  if (-32768 <=? z) && (z <=? 32767) then Some z else None.

(** The exact value of a float as a rational (0 for infinities and NaN). *)
Definition to_Q (x : float) : Q :=
  match x with
  | S754_finite s m e =>
      match e with
      | Zneg p => cond_Zopp s (Zpos m) # (2 ^ p)
      | _ => inject_Z (cond_Zopp s (Zpos m * 2 ^ e))
      end
  | _ => 0%Q
  end.

(** The exact value of a valid float ([-149] is its least exponent), in
    units of [2 ^ -149]. *)
Definition units (x : float) : Z :=
  match x with
  | S754_finite s m e => cond_Zopp s (Zpos m) * 2 ^ (e + 149)
  | _ => 0
  end.

(** The least magnitude that rounds to an infinity, in units of [2 ^ -149]:
    half a unit in the last place above the largest float. *)
Definition overflow_threshold : Z := (2 ^ 25 - 1) * 2 ^ 252.

End F32.

Abbreviation float := F32.float.

(** ** Sample codec *)

Definition RNNOISE_FRAME_SIZE : Z := 480.
Definition INT_MAX : Z := 2147483647.

Definition int16 (z : Z) : Prop := -32768 <= z <= 32767.

Definition s16_to_float (sample : Z) : float :=
  F32.div (F32.of_Z sample) F32.c32768.

Definition float_to_s16 (sample : float) : option Z :=
  let scaled := F32.mul sample F32.c32767 in
  if F32.leb F32.c32767 scaled then Some 32767
  else if F32.leb scaled (F32.opp F32.c32768) then Some (-32768)
  else F32.to_int16 scaled.

(** ** Frame pipeline *)

(** Step 3 of the frame loop for one index: the blend, before the gate. *)
Definition blend (strength original denoised : float) : float :=
  let noise_reduction := F32.sub original denoised in
  F32.sub original (F32.mul noise_reduction strength).

Definition gate (gateThreshold : float) (useSpectralGating : bool)
    (v : float) : float :=
  if useSpectralGating && F32.ltb (F32.abs v) gateThreshold
  then F32.zero else v.

Definition clamp (v : float) : float :=
  let v := if F32.ltb F32.one v then F32.one else v in
  if F32.ltb v (F32.opp F32.one) then F32.opp F32.one else v.

Definition enhance (strength gateThreshold : float) (useSpectralGating : bool)
    (original denoised : float) : float :=
  clamp (gate gateThreshold useSpectralGating
           (blend strength original denoised)).

(** Accesses to the caller's buffer [samples[index]]. *)
Definition load (samples : list Z) (index : Z) : option Z :=
  if 0 <=? index then samples !! Z.to_nat index else None.

Definition store (samples : list Z) (index : Z) (v : Z) : option (list Z) :=
  if (0 <=? index) && (index <? Z.of_nat (length samples))
  then Some (<[Z.to_nat index := v]> samples) else None.

(** Step 1: read [n] samples of channel 0, beginning at per-channel
    position [pos], and normalise them. *)
Fixpoint deinterleave (samples : list Z) (channels pos : Z) (n : nat)
  : option (list float) :=
  match n with
  | O => Some []
  | S n' =>
      s ← load samples (pos * channels);
      rest ← deinterleave samples channels (pos + 1) n';
      Some (s16_to_float s :: rest)
  end.

(** Step 4: requantise the floats of [float_out] and write them to channel 0,
    beginning at per-channel position [pos]. *)
Fixpoint reinterleave (float_out : list float) (channels pos : Z)
    (samples : list Z) : option (list Z) :=
  match float_out with
  | [] => Some samples
  | f :: rest =>
      v ← float_to_s16 f;
      samples' ← store samples (pos * channels) v;
      reinterleave rest channels (pos + 1) samples'
  end.

(** What a call does besides changing the buffer: the log lines it prints
    and its calls of the model, each with the frame handed to the model and
    the frame the model produced, in order. *)
Inductive event : Type :=
| LogE_state_null                      (* "RNNoise state is null! ..." *)
| LogE_invalid_channels (channels : Z) (* "Invalid channel count: %d" *)
| LogV_empty_chunk                     (* "Empty audio chunk received." *)
| LogW_sample_rate (sampleRate : Z)    (* "RNNoise running at %dHz, ..." *)
| Call_rnnoise_process_frame (float_in : list float) (float_out : nat -> float).

Inductive outcome (A : Type) : Type :=
| Returns (a : A)
| Undefined        (* undefined behaviour of the C++ program *)
| OutOfFuel.       (* the loop bound of the model was too small *)
Arguments Returns {A} a.
Arguments Undefined {A}.
Arguments OutOfFuel {A}.

Section Pipeline.

(** The RNNoise model: [rnnoise_process_frame st out in] reads the 480
    floats of [in], updates the state and fills the 480 floats of [out];
    the function below gives the new state and [out[i]] for each [i]. *)
Variable DenoiseState : Type.
Variable rnnoise_process_frame :
  DenoiseState -> list float -> DenoiseState * (nat -> float).

Record result : Type := Result {
  ret : bool;                       (* the value returned *)
  samples_out : list Z;             (* the buffer after the call *)
  state_out : option DenoiseState;  (* [rnnoise_state] after the call *)
  trace : list event
}.

(** The body of the frame loop for the frame of [samples_in_this_frame]
    samples that begins at [frame_start_sample]. *)
Definition process_frame (channels : Z)
    (strength gateThreshold : float) (useSpectralGating : bool)
    (frame_start_sample : Z) (samples_in_this_frame : Z)
    (st : DenoiseState) (samples : list Z)
  : option (DenoiseState * list Z * event) :=
  let n := Z.to_nat samples_in_this_frame in
  read ← deinterleave samples channels frame_start_sample n;
  let float_original :=
    read ++ replicate (Z.to_nat RNNOISE_FRAME_SIZE - n) F32.zero in
  let float_in := float_original in
  let '(st', denoised) := rnnoise_process_frame st float_in in
  let float_out :=
    imap (fun i original =>
            enhance strength gateThreshold useSpectralGating
              original (denoised i)) float_original in
  samples' ← reinterleave (take n float_out) channels frame_start_sample
               samples;
  Some (st', samples', Call_rnnoise_process_frame float_in denoised).

Fixpoint frame_loop (fuel : nat) (samples_per_channel channels : Z)
    (strength gateThreshold : float) (useSpectralGating : bool)
    (frame_start_sample : Z) (st : DenoiseState) (samples : list Z)
    (tr : list event)
  : outcome (DenoiseState * list Z * list event) :=
  if frame_start_sample <? samples_per_channel then
    let samples_in_this_frame :=
      Z.min RNNOISE_FRAME_SIZE (samples_per_channel - frame_start_sample) in
    if samples_in_this_frame <=? 0 then Returns (st, samples, tr)
    else
      match process_frame channels strength gateThreshold useSpectralGating
              frame_start_sample samples_in_this_frame st samples with
      | None => Undefined
      | Some (st', samples', call) =>
          if INT_MAX <? frame_start_sample + RNNOISE_FRAME_SIZE
          then Undefined
          else
            match fuel with
            | O => OutOfFuel
            | S fuel' =>
                frame_loop fuel' samples_per_channel channels
                  strength gateThreshold useSpectralGating
                  (frame_start_sample + RNNOISE_FRAME_SIZE) st' samples'
                  (tr ++ [call])
            end
      end
  else Returns (st, samples, tr).

Definition process_audio_with_rnnoise (rnnoise_state : option DenoiseState)
    (samples : list Z) (numSamples sampleRate channels : Z)
    (strength gateThreshold : float) (useSpectralGating : bool)
  : outcome result :=
  match rnnoise_state with
  | None => Returns (Result false samples None [LogE_state_null])
  | Some st =>
      if channels <=? 0 then
        Returns (Result false samples (Some st)
                   [LogE_invalid_channels channels])
      else if numSamples <=? 0 then
        Returns (Result true samples (Some st) [LogV_empty_chunk])
      else
        let tr :=
          if sampleRate =? 48000 then []
          else [LogW_sample_rate sampleRate] in
        let samples_per_channel := numSamples ÷ channels in
        match frame_loop (Z.to_nat samples_per_channel)
                samples_per_channel channels
                strength gateThreshold useSpectralGating 0 st samples tr with
        | Returns (st', samples', tr') =>
            Returns (Result true samples' (Some st') tr')
        | Undefined => Undefined
        | OutOfFuel => OutOfFuel
        end
  end.

End Pipeline.

Arguments Result {DenoiseState} ret samples_out state_out trace.
Arguments ret {DenoiseState} r.
Arguments samples_out {DenoiseState} r.
Arguments state_out {DenoiseState} r.
Arguments trace {DenoiseState} r.
Arguments process_frame {DenoiseState}.
Arguments frame_loop {DenoiseState}.
Arguments process_audio_with_rnnoise {DenoiseState}.

(** ** Vocabulary of the specification *)

(** The source reports every failure by returning [false]; the kinds of
    failure that the specification names are told apart by the error line
    logged before the return. *)
Inductive ProcessingError : Type :=
| InvalidChannelCount
| EngineUnavailable.

Definition failure {DenoiseState} (r : result DenoiseState)
  : option ProcessingError :=
  if ret r then None
  else match trace r with
       | [LogE_state_null] => Some EngineUnavailable
       | [LogE_invalid_channels _] => Some InvalidChannelCount
       | _ => None
       end.

(** The interleaved positions that the frame loop writes: channel 0 of the
    [samples_in_this_frame] samples of every frame. *)
Definition frame_position (samples_per_channel channels p : Z) : Prop :=
  exists frame_start_sample i,
    0 <= frame_start_sample < samples_per_channel /\
    frame_start_sample mod RNNOISE_FRAME_SIZE = 0 /\
    0 <= i < Z.min RNNOISE_FRAME_SIZE
               (samples_per_channel - frame_start_sample) /\
    p = (frame_start_sample + i) * channels.

(** The calls of the model in a trace: the input and the output frame of
    each. *)
Fixpoint model_calls (tr : list event) : list (list float * (nat -> float)) :=
  match tr with
  | [] => []
  | Call_rnnoise_process_frame float_in float_out :: tr' =>
      (float_in, float_out) :: model_calls tr'
  | _ :: tr' => model_calls tr'
  end.

(** The sample codec in the words of the specification, over the exact
    values of the floats: [toNormalizedFloat] divides by 32768;
    [toInt16] takes the sample already scaled by 32767, maps results
    [>= 32767] to 32767 and results [<= -32768] to -32768, and otherwise
    truncates toward zero. *)
Definition Qtruncate (q : Q) : Z := Qnum q ÷ Zpos (Qden q).

Definition toNormalizedFloat (sample : Z) : Q := (sample # 32768)%Q.

Definition toInt16 (scaled : Q) : Z :=
  if Qle_bool 32767%Q scaled then 32767
  else if Qle_bool scaled (-32768)%Q then -32768
  else Qtruncate scaled.

(** ** Exhaustive checks over [int16_t]

    The codec facts that concern only the 65536 sample values are checked
    on each of them. *)

(** One quantisation step toward zero. *)
Definition toward_zero (s : Z) : Z := s - Z.sgn s.

Definition option_Z_eqb (o : option Z) (z : Z) : bool :=
  match o with Some v => v =? z | None => false end.

(** [s16_to_float s] is a valid finite float of exact value [s / 32768]
    ([s * 2 ^ 134] units) and not the negative zero, and requantising it,
    clamped or not, gives [s] moved one step toward zero. *)
Definition s16_check (s : Z) : bool :=
  let x := s16_to_float s in
  F32.valid x && F32.is_finite x && (F32.units x =? s * 2 ^ 134)
  && match x with S754_zero true => false | _ => true end
  && option_Z_eqb (float_to_s16 x) (toward_zero s)
  && option_Z_eqb (float_to_s16 (clamp x)) (toward_zero s).

Fixpoint all_from (n : nat) (lo : Z) (f : Z -> bool) : bool :=
  match n with
  | O => true
  | S n' => f lo && all_from n' (lo + 1) f
  end.

(** ** What the statements about defined behaviour ask of the model *)

(** The frames that the pipeline hands to the model: 480 floats, each the
    normalisation of an [int16_t] sample (the padding 0.0 is that of 0). *)
Definition pipeline_frame (float_in : list float) : Prop :=
  length float_in = Z.to_nat RNNOISE_FRAME_SIZE /\
  forall (i : nat) original,
    float_in !! i = Some original ->
    exists s, int16 s /\ original = s16_to_float s.

(** [model_outputs model I D]: on the engine states of the set [I], which
    the model does not leave, and on the frames of the pipeline, every
    output of the model stands in [D] to the input at its index.  Nothing is
    asked of the model on other states or on other frames. *)
Definition model_outputs {DenoiseState : Type}
    (rnnoise_process_frame :
       DenoiseState -> list float -> DenoiseState * (nat -> float))
    (I : DenoiseState -> Prop) (D : float -> float -> Prop) : Prop :=
  forall st float_in,
    I st -> pipeline_frame float_in ->
    I (fst (rnnoise_process_frame st float_in)) /\
    forall (i : nat) original,
      float_in !! i = Some original ->
      D original (snd (rnnoise_process_frame st float_in) i).

(** The output is a number, neither an infinity nor NaN. *)
Definition finite_output (original denoised : float) : Prop :=
  F32.valid denoised = true /\ F32.is_finite denoised = true.

Definition is_zero (x : float) : bool :=
  match x with S754_zero _ => true | _ => false end.

(** The blend of [original] with the output [denoised] is a number or an
    infinity, not NaN: neither the output nor the strength is NaN, the
    output is not infinite while the strength is zero, and the strength is
    not infinite while the difference [original - denoised] is zero. *)
Definition blend_is_number (strength original denoised : float) : Prop :=
  F32.valid denoised = true /\
  F32.is_nan denoised = false /\
  F32.is_nan strength = false /\
  ~ (F32.is_finite denoised = false /\ is_zero strength = true) /\
  ~ (F32.is_finite strength = false /\
     is_zero (F32.sub original denoised) = true).

(** ** Models for the examples *)

(** A model that answers every frame with the constant [v] and counts the
    frames it has seen. *)
Definition constant_model (v : float) (st : nat) (float_in : list float)
  : nat * (nat -> float) :=
  (S st, fun _ => v).

(** A model that returns its input frame. *)
Definition echo_model (st : nat) (float_in : list float)
  : nat * (nat -> float) :=
  (S st, fun i => nth i float_in F32.zero).

(** ** Engine lifecycle: [JNI_OnLoad] and [JNI_OnUnload] *)

Definition JNI_ERR : Z := -1.
Definition JNI_VERSION_1_6 : Z := 65542.   (* 0x00010006 *)

(** The log lines of the two hooks and their calls of the RNNoise
    library. *)
Inductive lifecycle_event (DenoiseState : Type) : Type :=
| LogI_onload                                 (* "JNI_OnLoad: Initializing ..." *)
| LogW_state_exists                           (* "RNNoise state already exists. ..." *)
| Call_rnnoise_destroy (st : DenoiseState)
| Call_rnnoise_create (created : option DenoiseState)
| LogE_create_failed                          (* "Failed to create RNNoise state!" *)
| LogI_created                                (* "RNNoise state created successfully." *)
| LogI_onunload                               (* "JNI_OnUnload: Destroying ..." *)
| LogI_destroyed.                             (* "RNNoise state destroyed." *)
Arguments LogI_onload {DenoiseState}.
Arguments LogW_state_exists {DenoiseState}.
Arguments Call_rnnoise_destroy {DenoiseState} st.
Arguments Call_rnnoise_create {DenoiseState} created.
Arguments LogE_create_failed {DenoiseState}.
Arguments LogI_created {DenoiseState}.
Arguments LogI_onunload {DenoiseState}.
Arguments LogI_destroyed {DenoiseState}.

(** [JNI_OnLoad]: [created] is what [rnnoise_create(nullptr)] returns, the
    null pointer being [None].  The result is the value returned, the new
    [rnnoise_state] and the events, in order. *)
Definition JNI_OnLoad {DenoiseState : Type}
    (rnnoise_state created : option DenoiseState)
  : Z * option DenoiseState * list (lifecycle_event DenoiseState) :=
  let tr := [LogI_onload] in
  let tr :=
    match rnnoise_state with
    | Some old => tr ++ [LogW_state_exists; Call_rnnoise_destroy old]
    | None => tr
    end in
  let tr := tr ++ [Call_rnnoise_create created] in
  match created with
  | None => (JNI_ERR, None, tr ++ [LogE_create_failed])
  | Some st => (JNI_VERSION_1_6, Some st, tr ++ [LogI_created])
  end.

Definition JNI_OnUnload {DenoiseState : Type}
    (rnnoise_state : option DenoiseState)
  : option DenoiseState * list (lifecycle_event DenoiseState) :=
  match rnnoise_state with
  | Some st => (None, [LogI_onunload; Call_rnnoise_destroy st; LogI_destroyed])
  | None => (None, [LogI_onunload])
  end.

(** The hooks as the host calls them, one after the other. *)
Inductive hook (DenoiseState : Type) : Type :=
| OnLoad (created : option DenoiseState)
| OnUnload.
Arguments OnLoad {DenoiseState} created.
Arguments OnUnload {DenoiseState}.

Fixpoint run_hooks {DenoiseState : Type} (hooks : list (hook DenoiseState))
    (rnnoise_state : option DenoiseState)
  : option DenoiseState * list (lifecycle_event DenoiseState) :=
  match hooks with
  | [] => (rnnoise_state, [])
  | OnLoad created :: rest =>
      let '(_, state', tr) := JNI_OnLoad rnnoise_state created in
      let '(state'', tr') := run_hooks rest state' in
      (state'', tr ++ tr')
  | OnUnload :: rest =>
      let '(state', tr) := JNI_OnUnload rnnoise_state in
      let '(state'', tr') := run_hooks rest state' in
      (state'', tr ++ tr')
  end.

(** The discipline of the RNNoise library, checked along a sequence of
    events: [rnnoise_create] is called only while no instance is alive (or
    the instance alive would leak) and [rnnoise_destroy] only on the very
    instance that is alive (anything else is a double free, or the free of
    a pointer that was never created).  [alive] is the instance alive before
    the events, if any; the result is [None] when the discipline is broken,
    otherwise the instance alive after the events, if any. *)
Fixpoint engine_discipline {DenoiseState : Type} `{EqDecision DenoiseState}
    (alive : option DenoiseState)
    (tr : list (lifecycle_event DenoiseState))
  : option (option DenoiseState) :=
  match tr with
  | [] => Some alive
  | Call_rnnoise_create created :: tr' =>
      match alive with
      | Some _ => None
      | None => engine_discipline created tr'
      end
  | Call_rnnoise_destroy st :: tr' =>
      if decide (alive = Some st) then engine_discipline None tr' else None
  | _ :: tr' => engine_discipline alive tr'
  end.

(** ** JNI bridges

    The region handed to the pipeline is modelled by the [int16_t] samples
    it holds, which is how the [reinterpret_cast] of the bridges views it;
    a last odd byte is not part of that view. *)

Inductive bridge_event : Type :=
| LogE_array_elements     (* "applyNativeFilterArray: Failed to get byte ..." *)
| LogE_buffer_address     (* "applyNativeFilterDirect: Failed to get direct ..." *)
| Pipeline (e : event).

Record bridge_result (DenoiseState : Type) : Type := BridgeResult {
  jni_ret : bool;                          (* JNI_TRUE or JNI_FALSE *)
  region_out : list Z;                     (* the Java array or buffer *)
  bridge_state : option DenoiseState;      (* [rnnoise_state] afterwards *)
  bridge_trace : list bridge_event
}.
Arguments BridgeResult {DenoiseState} jni_ret region_out bridge_state
  bridge_trace.
Arguments jni_ret {DenoiseState} b.
Arguments region_out {DenoiseState} b.
Arguments bridge_state {DenoiseState} b.
Arguments bridge_trace {DenoiseState} b.

Section Bridges.

Variable DenoiseState : Type.
Variable rnnoise_process_frame :
  DenoiseState -> list float -> DenoiseState * (nat -> float).

(** [elements] is the outcome of [GetByteArrayElements]: [None] for a null
    pointer, [Some is_copy] for a pointer to a copy of the array
    ([is_copy = true]) or to the array itself.  Releasing a copy with mode 0
    copies it back into the array, with [JNI_ABORT] it does not. *)
Definition applyNativeFilterArray (rnnoise_state : option DenoiseState)
    (audioData : list Z) (elements : option bool)
    (size sampleRate channels : Z)
    (strength gateThreshold : float) (useSpectralGating : bool)
  : outcome (bridge_result DenoiseState) :=
  match elements with
  | None =>
      Returns (BridgeResult false audioData rnnoise_state
                 [LogE_array_elements])
  | Some is_copy =>
      let numSamples := size ÷ 2 in
      match process_audio_with_rnnoise rnnoise_process_frame rnnoise_state
              audioData numSamples sampleRate channels
              strength gateThreshold useSpectralGating with
      | Returns r =>
          let success := ret r in
          let released :=
            if is_copy
            then (if success then samples_out r else audioData)
            else samples_out r in
          Returns (BridgeResult success released (state_out r)
                     (map Pipeline (trace r)))
      | Undefined => Undefined
      | OutOfFuel => OutOfFuel
      end
  end.

(** [buffer] is the outcome of [GetDirectBufferAddress]: [None] for a null
    address, otherwise the memory of the direct buffer.  The result is the
    value returned, the memory of the buffer, [rnnoise_state] and the
    events. *)
Definition applyNativeFilterDirect (rnnoise_state : option DenoiseState)
    (buffer : option (list Z)) (size sampleRate channels : Z)
    (strength gateThreshold : float) (useSpectralGating : bool)
  : outcome (bool * option (list Z) * option DenoiseState
             * list bridge_event) :=
  match buffer with
  | None => Returns (false, None, rnnoise_state, [LogE_buffer_address])
  | Some samples =>
      let numSamples := size ÷ 2 in
      match process_audio_with_rnnoise rnnoise_process_frame rnnoise_state
              samples numSamples sampleRate channels
              strength gateThreshold useSpectralGating with
      | Returns r =>
          Returns (ret r, Some (samples_out r), state_out r,
                   map Pipeline (trace r))
      | Undefined => Undefined
      | OutOfFuel => OutOfFuel
      end
  end.

End Bridges.

Arguments applyNativeFilterArray {DenoiseState}.
Arguments applyNativeFilterDirect {DenoiseState}.

(** ** Further vocabulary *)

(** The calls of a trace are the model run from [st] to [st'], its state
    handed from each call to the next. *)
Fixpoint threaded {DenoiseState : Type}
    (rnnoise_process_frame :
       DenoiseState -> list float -> DenoiseState * (nat -> float))
    (st : DenoiseState) (calls : list (list float * (nat -> float)))
    (st' : DenoiseState) : Prop :=
  match calls with
  | [] => st' = st
  | (float_in, denoised) :: rest =>
      snd (rnnoise_process_frame st float_in) = denoised /\
      threaded rnnoise_process_frame
        (fst (rnnoise_process_frame st float_in)) rest st'
  end.

(** What a call does apart from its log lines. *)
Definition effect {DenoiseState : Type} (r : result DenoiseState)
  : bool * list Z * option DenoiseState * list (list float * (nat -> float)) :=
  (ret r, samples_out r, state_out r, model_calls (trace r)).

(** * Properties *)

(** ** Binary32 arithmetic *)

Module F32Facts.
Import F32.

Lemma digits_pos_bounds (p : positive) :
  2 ^ (Zpos (digits2_pos p) - 1) <= Zpos p < 2 ^ Zpos (digits2_pos p).
Proof.
  induction p as [p IH|p IH|]; simpl digits2_pos;
    rewrite ?Pos2Z.inj_succ; [| |simpl; lia].
  - replace (Z.succ (Zpos (digits2_pos p)) - 1)
      with (Z.succ (Zpos (digits2_pos p) - 1)) by lia.
    rewrite !Z.pow_succ_r by lia. lia.
  - replace (Z.succ (Zpos (digits2_pos p)) - 1)
      with (Z.succ (Zpos (digits2_pos p) - 1)) by lia.
    rewrite !Z.pow_succ_r by lia. lia.
Qed.

Lemma digits_unique (p : positive) (d : Z) :
  2 ^ (d - 1) <= Zpos p < 2 ^ d -> Zpos (digits2_pos p) = d.
Proof.
  intros [Hlo Hhi]. pose proof (digits_pos_bounds p) as [Hlo' Hhi'].
  assert (0 < d).
  { destruct (Z.lt_ge_cases 0 d) as [|Hd]; [done|].
    destruct (Z.eq_dec d 0) as [->|]; [simpl in Hhi; lia|].
    rewrite (Z.pow_neg_r 2 d) in Hhi by lia. lia. }
  destruct (Z.lt_trichotomy (Zpos (digits2_pos p)) d) as [Hlt|[Heq|Hgt]];
    [|done|].
  - assert (2 ^ Zpos (digits2_pos p) <= 2 ^ (d - 1))
      by (apply Z.pow_le_mono_r; lia). lia.
  - assert (2 ^ d <= 2 ^ (Zpos (digits2_pos p) - 1))
      by (apply Z.pow_le_mono_r; lia). lia.
Qed.

Lemma iter_pos_nat {A} (f : A -> A) (p : positive) (x : A) :
  SpecFloat.iter_pos f p x = Nat.iter (Pos.to_nat p) f x.
Proof.
  revert x. induction p as [p IH|p IH|]; intros x; simpl SpecFloat.iter_pos.
  - rewrite !IH, Pos2Nat.inj_xI.
    replace (S (2 * Pos.to_nat p))%nat
      with (Pos.to_nat p + (Pos.to_nat p + 1))%nat by lia.
    rewrite !Nat.iter_add. reflexivity.
  - rewrite !IH, Pos2Nat.inj_xO.
    replace (2 * Pos.to_nat p)%nat
      with (Pos.to_nat p + Pos.to_nat p)%nat by lia.
    rewrite Nat.iter_add. reflexivity.
  - reflexivity.
Qed.

(** One step of the right shift: the mantissa is halved, the round bit
    becomes the bit shifted out and the sticky bit collects the rest. *)
Lemma shr_1_spec (r : shr_record) :
  0 <= shr_m r ->
  shr_m (shr_1 r) = shr_m r / 2 /\
  shr_r (shr_1 r) = Z.odd (shr_m r) /\
  shr_s (shr_1 r) = shr_r r || shr_s r.
Proof.
  destruct r as [m rb sb]. simpl. intros Hm.
  destruct m as [|[p|p|]|p]; try lia; simpl; repeat split.
  - apply Z.div_unique with (r := 1); lia.
  - apply Z.div_unique with (r := 0); lia.
Qed.

Lemma shr_iter_spec (n : nat) (r : shr_record) :
  0 <= shr_m r ->
  shr_m (Nat.iter n shr_1 r) = shr_m r / 2 ^ Z.of_nat n.
Proof.
  intros Hm. induction n as [|n IH].
  - simpl. by rewrite Z.div_1_r.
  - rewrite Nat.iter_succ.
    assert (0 <= shr_m (Nat.iter n shr_1 r)).
    { rewrite IH. apply Z.div_pos; lia. }
    destruct (shr_1_spec (Nat.iter n shr_1 r)) as [-> _]; [done|].
    rewrite IH, Nat2Z.inj_succ, Z.pow_succ_r by lia.
    rewrite Z.div_div by lia. f_equal. lia.
Qed.

(** The round bit after [n > 0] steps is bit [n - 1] of the mantissa. *)
Lemma shr_iter_round (n : nat) (r : shr_record) :
  0 <= shr_m r ->
  shr_r (Nat.iter (S n) shr_1 r) = Z.testbit (shr_m r) (Z.of_nat n).
Proof.
  intros Hm. rewrite Nat.iter_succ.
  assert (0 <= shr_m (Nat.iter n shr_1 r)).
  { rewrite shr_iter_spec by done. apply Z.div_pos; lia. }
  destruct (shr_1_spec (Nat.iter n shr_1 r)) as (_ & -> & _); [done|].
  rewrite shr_iter_spec by done.
  rewrite <- Z.bit0_odd, Z.div_pow2_bits by lia. f_equal.
Qed.


Lemma fexp_eq (e : Z) : fexp prec emax e = Z.max (e - 24) (-149).
Proof. reflexivity. Qed.

Lemma Zdigits2_nonneg (m : Z) : 0 <= Zdigits2 m.
Proof. destruct m; simpl; lia. Qed.

Lemma Zdigits2_bounds (m : Z) :
  0 < m -> 2 ^ (Zdigits2 m - 1) <= m < 2 ^ Zdigits2 m.
Proof. destruct m as [|p|p]; try lia. intros _. apply digits_pos_bounds. Qed.

Lemma Zdigits2_unique (m d : Z) :
  0 < m -> 2 ^ (d - 1) <= m < 2 ^ d -> Zdigits2 m = d.
Proof. destruct m as [|p|p]; try lia. intros _. apply digits_unique. Qed.

Lemma Zdigits2_le (m m' : Z) : 0 <= m <= m' -> Zdigits2 m <= Zdigits2 m'.
Proof.
  intros [H0 Hle]. destruct (Z.eq_dec m 0) as [->|]; [apply Zdigits2_nonneg|].
  pose proof (Zdigits2_bounds m) as [Hlo _]; [lia|].
  pose proof (Zdigits2_bounds m') as [_ Hhi]; [lia|].
  destruct (Z.le_gt_cases (Zdigits2 m) (Zdigits2 m')) as [|Hgt]; [done|].
  assert (2 ^ Zdigits2 m' <= 2 ^ (Zdigits2 m - 1))
    by (apply Z.pow_le_mono_r; lia). lia.
Qed.

Lemma Zdigits2_div_pow2 (m k : Z) :
  0 < m -> 0 <= k -> Zdigits2 (m / 2 ^ k) = Z.max (Zdigits2 m - k) 0.
Proof.
  intros Hm Hk. pose proof (Zdigits2_bounds m Hm) as [Hlo Hhi].
  pose proof (Zdigits2_nonneg m).
  assert (0 < 2 ^ k) by (apply Z.pow_pos_nonneg; lia).
  destruct (Z.le_gt_cases (Zdigits2 m) k) as [Hle|Hgt].
  - assert (2 ^ Zdigits2 m <= 2 ^ k) by (apply Z.pow_le_mono_r; lia).
    rewrite Z.div_small by lia. simpl. lia.
  - replace (Z.max (Zdigits2 m - k) 0) with (Zdigits2 m - k) by lia.
    assert (2 ^ (Zdigits2 m - 1) = 2 ^ k * 2 ^ (Zdigits2 m - k - 1)) as E1.
    { rewrite <- Z.pow_add_r by lia. f_equal. lia. }
    assert (2 ^ Zdigits2 m = 2 ^ k * 2 ^ (Zdigits2 m - k)) as E2.
    { rewrite <- Z.pow_add_r by lia. f_equal. lia. }
    assert (2 ^ (Zdigits2 m - k - 1) <= m / 2 ^ k).
    { apply Z.div_le_lower_bound; lia. }
    assert (m / 2 ^ k < 2 ^ (Zdigits2 m - k)).
    { apply Z.div_lt_upper_bound; lia. }
    assert (0 < 2 ^ (Zdigits2 m - k - 1)) by (apply Z.pow_pos_nonneg; lia).
    apply Zdigits2_unique; [lia|].
    replace (Zdigits2 m - k - 1) with (Zdigits2 m - k - 1) by lia. lia.
Qed.

(** [shr] divides the mantissa by [2 ^ n] and adds [n] to the exponent. *)
Lemma shr_spec (r : shr_record) (e n : Z) :
  0 <= shr_m r ->
  snd (shr r e n) = e + Z.max n 0 /\
  shr_m (fst (shr r e n)) = shr_m r / 2 ^ Z.max n 0.
Proof.
  intros Hm. destruct n as [|p|p]; unfold shr; cbn [fst snd].
  - change (Z.max 0 0) with 0. rewrite Z.pow_0_r, Z.div_1_r. lia.
  - rewrite Z.max_l by lia. split; [reflexivity|].
    by rewrite iter_pos_nat, shr_iter_spec, positive_nat_Z.
  - rewrite Z.max_r by lia. rewrite Z.pow_0_r, Z.div_1_r. lia.
Qed.

Lemma shr_record_of_loc_m (m : Z) (l : location) :
  shr_m (shr_record_of_loc m l) = m.
Proof. by destruct l as [|[]]. Qed.

Lemma shr_fexp_spec (m e : Z) (l : location) :
  0 <= m ->
  let n := Z.max (fexp prec emax (Zdigits2 m + e) - e) 0 in
  snd (shr_fexp prec emax m e l) = e + n /\
  shr_m (fst (shr_fexp prec emax m e l)) = m / 2 ^ n.
Proof.
  intros Hm n. unfold shr_fexp.
  pose proof (shr_spec (shr_record_of_loc m l) e
                (fexp prec emax (Zdigits2 m + e) - e)) as Hs.
  rewrite shr_record_of_loc_m in Hs. by apply Hs.
Qed.

Lemma round_nearest_even_range (m : Z) (l : location) :
  m <= round_nearest_even m l <= m + 1.
Proof. destruct l as [|[]]; simpl; try lia. destruct (Z.even m); lia. Qed.

(** After [shr_fexp] a positive mantissa is in canonical position. *)
Lemma shr_fexp_canonical (m e : Z) (l : location) :
  0 < m -> e <= fexp prec emax (Zdigits2 m + e) ->
  let '(r, e') := shr_fexp prec emax m e l in
  e' = fexp prec emax (Zdigits2 m + e) /\
  0 <= shr_m r /\
  (0 < shr_m r -> Zdigits2 (shr_m r) + e' = Zdigits2 m + e) /\
  (shr_m r = 0 -> e' = -149).
Proof.
  intros Hm He. pose proof (shr_fexp_spec m e l) as Hs.
  destruct (shr_fexp prec emax m e l) as [r e']. simpl in Hs.
  destruct Hs as [-> ->]; [lia|].
  set (n := Z.max (fexp prec emax (Zdigits2 m + e) - e) 0).
  assert (n = fexp prec emax (Zdigits2 m + e) - e) as Hn by lia.
  assert (0 <= m / 2 ^ n) by (apply Z.div_pos; [lia|apply Z.pow_pos_nonneg; lia]).
  pose proof (Zdigits2_div_pow2 m n Hm ltac:(lia)) as Hd.
  pose proof (Zdigits2_nonneg m).
  rewrite fexp_eq in *.
  repeat split; try lia.
  - intros Hpos.
    destruct (Z.le_gt_cases (Zdigits2 m - n) 0) as [Hle|Hgt]; [|lia].
    rewrite Z.max_r in Hd by lia.
    destruct (m / 2 ^ n); simpl in Hd; lia.
  - intros Hz. rewrite Hz in Hd. simpl in Hd. lia.
Qed.

Theorem binary_round_aux_valid (s : bool) (m : positive) (e : Z)
    (l : location) :
  e <= fexp prec emax (Zdigits2 (Zpos m) + e) ->
  valid (binary_round_aux prec emax s (Zpos m) e l) = true /\
  is_nan (binary_round_aux prec emax s (Zpos m) e l) = false.
Proof.
  intros He. unfold binary_round_aux.
  pose proof (shr_fexp_canonical (Zpos m) e l ltac:(lia) He) as H1.
  destruct (shr_fexp prec emax (Zpos m) e l) as [r1 e1].
  destruct H1 as (He1 & Hm1 & Hd1 & Hz1).
  set (m2 := round_nearest_even (shr_m r1) (loc_of_shr_record r1)).
  pose proof (round_nearest_even_range (shr_m r1) (loc_of_shr_record r1))
    as Hm2. fold m2 in Hm2.
  destruct (Z.eq_dec m2 0) as [Hz|Hnz].
  - pose proof (shr_fexp_spec m2 e1 loc_Exact ltac:(lia)) as Hs.
    destruct (shr_fexp prec emax m2 e1 loc_Exact) as [r2 e2].
    simpl in Hs. destruct Hs as [_ ->]. rewrite Hz, Z.div_0_l; [done|].
    apply Z.pow_nonzero; lia.
  - assert (e1 <= fexp prec emax (Zdigits2 m2 + e1)) as He2.
    { destruct (Z.eq_dec (shr_m r1) 0) as [H0|].
      - rewrite (Hz1 H0), fexp_eq. lia.
      - pose proof (Zdigits2_le (shr_m r1) m2 ltac:(lia)).
        specialize (Hd1 ltac:(lia)). rewrite fexp_eq in *. lia. }
    pose proof (shr_fexp_canonical m2 e1 loc_Exact ltac:(lia) He2) as H2.
    destruct (shr_fexp prec emax m2 e1 loc_Exact) as [r2 e2].
    destruct H2 as (He2' & Hm2' & Hd2 & _).
    destruct (shr_m r2) as [|mf|mf] eqn:Hmf; [done| |lia].
    destruct (e2 <=? emax - prec) eqn:Hle; [|done].
    split; [|done]. unfold valid. simpl. unfold bounded, canonical_mantissa.
    rewrite Hle, andb_true_r. apply Z.eqb_eq.
    specialize (Hd2 ltac:(lia)). simpl in Hd2. rewrite Hd2. lia.
Qed.


Lemma valid_finite_inv (s : bool) (m : positive) (e : Z) :
  valid (S754_finite s m e) = true ->
  fexp prec emax (Zpos (digits2_pos m) + e) = e /\ e <= 104.
Proof.
  unfold valid. simpl. unfold bounded, canonical_mantissa.
  intros H. apply andb_true_iff in H as [H1 H2].
  apply Z.eqb_eq in H1. apply Z.leb_le in H2. split; [done|]. exact H2.
Qed.

(** The mantissa of a valid float has at most 24 bits, and exactly 24 above
    the least exponent. *)
Lemma valid_finite_bounds (s : bool) (m : positive) (e : Z) :
  valid (S754_finite s m e) = true ->
  -149 <= e <= 104 /\ Zpos m < 2 ^ 24 /\ (-149 < e -> 2 ^ 23 <= Zpos m).
Proof.
  intros H. apply valid_finite_inv in H as [Hc He]. rewrite fexp_eq in Hc.
  pose proof (digits_pos_bounds m) as [Hlo Hhi].
  assert (Zpos (digits2_pos m) <= 24) by lia.
  assert (2 ^ Zpos (digits2_pos m) <= 2 ^ 24)
    by (apply Z.pow_le_mono_r; lia).
  repeat split; try lia. intros Hgt.
  assert (Zpos (digits2_pos m) = 24) as E by lia. by rewrite E in Hlo.
Qed.

Lemma Zdigits2_mul (p q : positive) :
  Zpos (digits2_pos p) + Zpos (digits2_pos q) - 1
    <= Zpos (digits2_pos (p * q)).
Proof.
  pose proof (digits_pos_bounds p) as [Hp _].
  pose proof (digits_pos_bounds q) as [Hq _].
  pose proof (digits_pos_bounds (p * q)) as [_ Hpq].
  rewrite Pos2Z.inj_mul in Hpq.
  set (dp := Zpos (digits2_pos p)) in *. set (dq := Zpos (digits2_pos q)) in *.
  set (d := Zpos (digits2_pos (p * q))) in *.
  assert (0 < dp) by done. assert (0 < dq) by done. assert (0 < d) by done.
  destruct (Z.le_gt_cases (dp + dq - 1) d) as [|Hgt]; [done|].
  assert (2 ^ d <= 2 ^ (dp - 1 + (dq - 1))) by (apply Z.pow_le_mono_r; lia).
  rewrite Z.pow_add_r in * by lia.
  assert (0 < 2 ^ (dp - 1)) by (apply Z.pow_pos_nonneg; lia).
  assert (0 < 2 ^ (dq - 1)) by (apply Z.pow_pos_nonneg; lia).
  nia.
Qed.

Theorem mul_valid (x y : float) :
  valid x = true -> valid y = true -> valid (mul x y) = true.
Proof.
  destruct x as [sx|sx| |sx mx ex], y as [sy|sy| |sy my ey]; try done.
  intros Hx Hy. apply binary_round_aux_valid.
  apply valid_finite_inv in Hx as [Hx _], Hy as [Hy _].
  pose proof (Zdigits2_mul mx my). rewrite fexp_eq in *. simpl Zdigits2.
  assert (0 < Zpos (digits2_pos mx)) by done.
  assert (0 < Zpos (digits2_pos my)) by done. lia.
Qed.

(** A product is NaN only for a NaN factor or for zero times infinity. *)
Theorem mul_finite_not_nan (x y : float) :
  valid x = true -> valid y = true ->
  is_nan x = false -> is_finite y = true ->
  (is_finite x = true \/ y <> S754_zero false /\ y <> S754_zero true) ->
  is_nan (mul x y) = false.
Proof.
  destruct x as [sx|sx| |sx mx ex], y as [sy|sy| |sy my ey]; try done.
  - intros _ _ _ _ [|[]]; [done|]. by destruct sy.
  - intros Hx Hy _ _ _. apply binary_round_aux_valid.
    apply valid_finite_inv in Hx as [Hx _], Hy as [Hy _].
    pose proof (Zdigits2_mul mx my). rewrite fexp_eq in *. simpl Zdigits2.
    assert (0 < Zpos (digits2_pos mx)) by done.
    assert (0 < Zpos (digits2_pos my)) by done. lia.
Qed.


Lemma Zdigits2_mul_pow2 (m k : Z) :
  0 < m -> 0 <= k -> Zdigits2 (m * 2 ^ k) = Zdigits2 m + k.
Proof.
  intros Hm Hk. pose proof (Zdigits2_bounds m Hm) as [Hlo Hhi].
  pose proof (Zdigits2_nonneg m).
  assert (0 < 2 ^ k) by (apply Z.pow_pos_nonneg; lia).
  assert (0 < Zdigits2 m) by (destruct m; simpl; lia).
  apply Zdigits2_unique; [nia|].
  replace (Zdigits2 m + k - 1) with (Zdigits2 m - 1 + k) by lia.
  rewrite !Z.pow_add_r by lia. nia.
Qed.

Lemma Pos_iter_xO (m d : positive) :
  Zpos (Pos.iter xO m d) = Zpos m * 2 ^ Zpos d.
Proof.
  induction d as [|d IH] using Pos.peano_ind.
  - simpl. lia.
  - rewrite Pos.iter_succ, Pos2Z.inj_xO, IH, Pos2Z.inj_succ, Z.pow_succ_r by lia.
    lia.
Qed.

Lemma shl_align_spec (mx : positive) (ex ex' : Z) :
  snd (shl_align mx ex ex') = Z.min ex ex' /\
  Zpos (fst (shl_align mx ex ex')) = Zpos mx * 2 ^ (ex - Z.min ex ex').
Proof.
  unfold shl_align. destruct (ex' - ex) as [|d|d] eqn:E; simpl.
  - replace (ex - Z.min ex ex') with 0 by lia. lia.
  - replace (ex - Z.min ex ex') with 0 by lia. lia.
  - rewrite Pos_iter_xO. replace (ex - Z.min ex ex') with (Zpos d) by lia. lia.
Qed.

Theorem binary_round_valid (s : bool) (m : positive) (e : Z) :
  valid (binary_round prec emax s m e) = true /\
  is_nan (binary_round prec emax s m e) = false.
Proof.
  unfold binary_round.
  pose proof (shl_align_spec m e (fexp prec emax (Zpos (digits2_pos m) + e)))
    as [He Hm].
  destruct (shl_align _ _ _) as [mz ez]. cbn [fst snd] in He, Hm.
  apply binary_round_aux_valid. rewrite Hm, Zdigits2_mul_pow2 by lia.
  cbn [Zdigits2]. rewrite !fexp_eq in *. lia.
Qed.

Theorem binary_normalize_valid (m e : Z) (szero : bool) :
  valid (binary_normalize prec emax m e szero) = true /\
  is_nan (binary_normalize prec emax m e szero) = false.
Proof. destruct m; [done| |]; apply binary_round_valid. Qed.

Theorem sub_valid (x y : float) :
  valid x = true -> valid y = true -> valid (sub x y) = true.
Proof.
  destruct x as [sx|sx| |sx mx ex], y as [sy|sy| |sy my ey]; try done;
    try (by destruct sx, sy).
  intros _ _. apply binary_normalize_valid.
Qed.

(** A difference is NaN only for a NaN operand or for equal infinities. *)
Theorem sub_finite_not_nan (x y : float) :
  is_finite x = true -> is_nan y = false -> is_nan (sub x y) = false.
Proof.
  destruct x as [sx|sx| |sx mx ex], y as [sy|sy| |sy my ey]; try done;
    try (by destruct sx, sy).
  intros _ _. apply binary_normalize_valid.
Qed.

(** Multiplying by [1.0f] is exact. *)
Theorem mul_one (x : float) : valid x = true -> mul x one = x.
Proof.
  destruct x as [sx|sx| |sx mx ex]; try done; try (by destruct sx).
  intros Hx. apply valid_finite_inv in Hx as [Hc He].
  unfold mul, one, SFmul. rewrite xorb_false_r, Pos.mul_comm.
  change (8388608 * mx)%positive
    with (mx~0~0~0~0~0~0~0~0~0~0~0~0~0~0~0~0~0~0~0~0~0~0~0)%positive.
  unfold binary_round_aux, shr_fexp.
  cbn [Zdigits2 digits2_pos].
  rewrite !Pos2Z.inj_succ.
  replace (fexp prec emax _ - (ex + -23)) with 23
    by (rewrite fexp_eq in *; lia).
  cbn -[fexp digits2_pos Z.sub Z.leb Z.add].
  replace (ex + -23 + 23) with ex by lia.
  replace (fexp prec emax (Zpos (digits2_pos mx) + ex) - ex) with 0 by lia.
  cbn. destruct (Z.leb_spec ex (emax - prec)) as [|Hgt]; [reflexivity|].
  unfold emax, prec in Hgt. lia.
Qed.


Lemma to_Q_units (x : float) :
  valid x = true -> (to_Q x == units x # (2 ^ 149)%positive)%Q.
Proof.
  destruct x as [sx|sx| |s m e]; try done. intros Hx.
  apply valid_finite_bounds in Hx as (He & _ & _).
  unfold to_Q, units, Qeq.
  assert (Zpos (2 ^ 149) = 2 ^ 149) as E by done.
  destruct e as [|p|p]; cbn [Qnum Qden inject_Z]; rewrite E;
    destruct s; cbn [cond_Zopp].
  - change (0 + 149) with 149. rewrite Z.pow_0_r. lia.
  - change (0 + 149) with 149. rewrite Z.pow_0_r. lia.
  - rewrite Z.pow_add_r by lia. lia.
  - rewrite Z.pow_add_r by lia. lia.
  - rewrite Pos2Z.inj_pow.
    replace (2 ^ 149) with (2 ^ (Zneg p + 149) * 2 ^ Zpos p).
    + lia.
    + rewrite <- Z.pow_add_r by lia. f_equal. lia.
  - rewrite Pos2Z.inj_pow.
    replace (2 ^ 149) with (2 ^ (Zneg p + 149) * 2 ^ Zpos p).
    + lia.
    + rewrite <- Z.pow_add_r by lia. f_equal. lia.
Qed.

Lemma Qle_bool_units_l (c : Z) (x : float) :
  valid x = true ->
  Qle_bool (inject_Z c) (to_Q x) = (c * 2 ^ 149 <=? units x).
Proof.
  intros Hx. rewrite (Qleb_comp _ _ (reflexivity _) _ _ (to_Q_units x Hx)).
  unfold Qle_bool. cbn [Qnum Qden inject_Z]. f_equal. lia.
Qed.

Lemma Qle_bool_units_r (c : Z) (x : float) :
  valid x = true ->
  Qle_bool (to_Q x) (inject_Z c) = (units x <=? c * 2 ^ 149).
Proof.
  intros Hx. rewrite (Qleb_comp _ _ (to_Q_units x Hx) _ _ (reflexivity _)).
  unfold Qle_bool. cbn [Qnum Qden inject_Z]. f_equal. lia.
Qed.

Lemma units_lt_exp (m1 e1 m2 e2 : Z) :
  -149 <= e1 < e2 -> m1 < 2 ^ 24 -> 2 ^ 23 <= m2 ->
  m1 * 2 ^ (e1 + 149) < m2 * 2 ^ (e2 + 149).
Proof.
  intros He H1 H2.
  replace (e2 + 149) with (e2 - e1 + (e1 + 149)) by lia.
  rewrite (Z.pow_add_r 2 (e2 - e1) (e1 + 149)), Z.mul_assoc by lia.
  apply Z.mul_lt_mono_pos_r; [apply Z.pow_pos_nonneg; lia|].
  assert (2 ^ 1 <= 2 ^ (e2 - e1)) by (apply Z.pow_le_mono_r; lia).
  change (2 ^ 1) with 2 in *. change (2 ^ 24) with 16777216 in *.
  change (2 ^ 23) with 8388608 in *. nia.
Qed.

(** On valid numbers the comparison of the floats is the comparison of
    their exact values. *)
Theorem compare_units (x y : float) :
  valid x = true -> valid y = true ->
  is_finite x = true -> is_finite y = true ->
  SFcompare x y = Some (units x ?= units y).
Proof.
  destruct x as [sx|sx| |sx mx ex], y as [sy|sy| |sy my ey]; try done;
    intros Hx Hy _ _; cbn [SFcompare units].
  - apply valid_finite_bounds in Hy as (He & _ & _).
    assert (0 < 2 ^ (ey + 149)) by (apply Z.pow_pos_nonneg; lia).
    destruct sy; cbn [cond_Zopp]; f_equal; symmetry;
      [apply Z.compare_gt_iff|apply Z.compare_lt_iff]; nia.
  - apply valid_finite_bounds in Hx as (He & _ & _).
    assert (0 < 2 ^ (ex + 149)) by (apply Z.pow_pos_nonneg; lia).
    destruct sx; cbn [cond_Zopp]; f_equal; symmetry;
      [apply Z.compare_lt_iff|apply Z.compare_gt_iff]; nia.
  - apply valid_finite_bounds in Hx as (Hex & Hxhi & Hxlo).
    apply valid_finite_bounds in Hy as (Hey & Hyhi & Hylo).
    assert (0 < 2 ^ (ex + 149)) by (apply Z.pow_pos_nonneg; lia).
    assert (0 < 2 ^ (ey + 149)) by (apply Z.pow_pos_nonneg; lia).
    change (Pos.compare_cont Eq mx my) with (mx ?= my)%positive.
    rewrite Pos2Z.inj_compare.
    f_equal. symmetry.
    destruct sx, sy; cbn [cond_Zopp].
    + rewrite !Z.mul_opp_l, Z.compare_opp.
      destruct (Z.compare_spec ex ey) as [->|Hlt|Hgt].
      * rewrite <- Zmult_compare_compat_r by lia. apply Z.compare_antisym.
      * apply Z.compare_gt_iff. apply units_lt_exp; lia.
      * apply Z.compare_lt_iff. apply units_lt_exp; lia.
    + apply Z.compare_lt_iff. nia.
    + apply Z.compare_gt_iff. nia.
    + destruct (Z.compare_spec ex ey) as [->|Hlt|Hgt].
      * by rewrite <- Zmult_compare_compat_r by lia.
      * apply Z.compare_lt_iff. apply units_lt_exp; lia.
      * apply Z.compare_gt_iff. apply units_lt_exp; lia.
Qed.

Lemma leb_units (x y : float) :
  valid x = true -> valid y = true ->
  is_finite x = true -> is_finite y = true ->
  leb x y = (units x <=? units y).
Proof.
  intros. unfold leb, SFleb. rewrite compare_units by done.
  unfold Z.leb. by destruct (units x ?= units y).
Qed.

Lemma ltb_units (x y : float) :
  valid x = true -> valid y = true ->
  is_finite x = true -> is_finite y = true ->
  ltb x y = (units x <? units y).
Proof.
  intros. unfold ltb, SFltb. rewrite compare_units by done.
  unfold Z.ltb. by destruct (units x ?= units y).
Qed.

(** The comparison [32767.0f <= x] of the source decides it exactly. *)
Lemma leb_c32767 (x : float) :
  valid x = true -> is_finite x = true ->
  leb c32767 x = Qle_bool 32767%Q (to_Q x).
Proof.
  intros Hx Hf. change 32767%Q with (inject_Z 32767).
  rewrite Qle_bool_units_l, leb_units by done. reflexivity.
Qed.

(** The comparison [x <= -32768.0f] of the source decides it exactly. *)
Lemma leb_m32768 (x : float) :
  valid x = true -> is_finite x = true ->
  leb x (opp c32768) = Qle_bool (to_Q x) (-32768)%Q.
Proof.
  intros Hx Hf. change (-32768)%Q with (inject_Z (-32768)).
  rewrite Qle_bool_units_r, leb_units by done. reflexivity.
Qed.


Lemma shiftl_units (m e : Z) :
  -149 <= e -> Z.shiftl m e = m * 2 ^ (e + 149) / 2 ^ 149.
Proof.
  intros He.
  assert (0 < 2 ^ 149) by (apply Z.pow_pos_nonneg; lia).
  destruct (Z.le_gt_cases 0 e) as [Hpos|Hneg].
  - rewrite Z.shiftl_mul_pow2, Z.pow_add_r, Z.mul_assoc by lia.
    rewrite Z.div_mul by lia. reflexivity.
  - rewrite Z.shiftl_div_pow2 by lia.
    replace (2 ^ 149) with (2 ^ (- e) * 2 ^ (e + 149)) at 1.
    + rewrite Z.div_mul_cancel_r; [reflexivity| |];
        apply Z.pow_nonzero; lia.
    + rewrite <- Z.pow_add_r by lia. f_equal. lia.
Qed.

Lemma truncate_Q (x : float) :
  is_finite x = true -> truncate x = Some (Qtruncate (to_Q x)).
Proof.
  destruct x as [sx|sx| |s m e]; try done. intros _.
  unfold truncate, to_Q, Qtruncate. f_equal.
  destruct e as [|p|p]; cbn [Qnum Qden inject_Z].
  - rewrite Z.quot_1_r, Z.shiftl_0_r, Z.pow_0_r, Z.mul_1_r. reflexivity.
  - rewrite Z.quot_1_r, Z.shiftl_mul_pow2 by lia. reflexivity.
  - rewrite Z.shiftl_div_pow2, Pos2Z.inj_pow by lia. cbn [Z.opp].
    destruct s; cbn [cond_Zopp].
    + change (Zneg m) with (- Zpos m). rewrite Z.quot_opp_l by lia.
      rewrite Z.quot_div_nonneg; [reflexivity|lia|].
      apply Z.pow_pos_nonneg; lia.
    + rewrite Z.quot_div_nonneg; [reflexivity|lia|].
      apply Z.pow_pos_nonneg; lia.
Qed.

(** A valid number strictly between the two saturation bounds truncates to
    an [int16_t]. *)
Lemma to_int16_units (x : float) :
  valid x = true -> is_finite x = true ->
  -32768 * 2 ^ 149 < units x < 32767 * 2 ^ 149 ->
  exists z, truncate x = Some z /\ to_int16 x = Some z /\
            -32768 < z < 32767.
Proof.
  destruct x as [sx|sx| |s m e]; try done; intros Hx _ Hu.
  - exists 0. repeat split; lia.
  - apply valid_finite_bounds in Hx as (He & _ & _).
    unfold to_int16, truncate, units in *.
    rewrite shiftl_units by lia.
    assert (0 < 2 ^ 149) as HU by (apply Z.pow_pos_nonneg; lia).
    assert (0 < 2 ^ (e + 149)) as HP by (apply Z.pow_pos_nonneg; lia).
    set (U := 2 ^ 149) in *. set (P := 2 ^ (e + 149)) in *.
    clearbody U P.
    assert (0 <= Zpos m * P / U) by (apply Z.div_pos; nia).
    eexists. split; [reflexivity|]. cbn [mbind option_bind].
    destruct s; cbn [cond_Zopp] in *.
    + assert (Zpos m * P / U < 32768)
        by (apply Z.div_lt_upper_bound; lia).
      replace ((-32768 <=? - (Zpos m * P / U))
               && (- (Zpos m * P / U) <=? 32767)) with true; [split; [done|lia]|].
      symmetry. apply andb_true_iff. split; apply Z.leb_le; lia.
    + assert (Zpos m * P / U < 32767)
        by (apply Z.div_lt_upper_bound; lia).
      replace ((-32768 <=? Zpos m * P / U)
               && (Zpos m * P / U <=? 32767)) with true; [split; [done|lia]|].
      symmetry. apply andb_true_iff. split; apply Z.leb_le; lia.
Qed.

Lemma c32767_valid : valid c32767 = true.
Proof. reflexivity. Qed.

(** [float_to_s16] is the specification's [toInt16] of the scaled sample. *)
Theorem float_to_s16_toInt16 (f : float) :
  valid f = true -> is_finite (mul f c32767) = true ->
  float_to_s16 f = Some (toInt16 (to_Q (mul f c32767))).
Proof.
  intros Hf Hfin.
  assert (valid (mul f c32767) = true) as Hv
    by (apply mul_valid; [done|reflexivity]).
  unfold float_to_s16, toInt16. cbv zeta.
  rewrite leb_c32767, leb_m32768 by done.
  change 32767%Q with (inject_Z 32767).
  change (-32768)%Q with (inject_Z (-32768)).
  rewrite Qle_bool_units_l, Qle_bool_units_r by done.
  destruct (Z.leb_spec (32767 * 2 ^ 149) (units (mul f c32767))); [done|].
  destruct (Z.leb_spec (units (mul f c32767)) (-32768 * 2 ^ 149)); [done|].
  destruct (to_int16_units (mul f c32767)) as (z & Ht & -> & _);
    [done|done|lia|].
  rewrite truncate_Q in Ht by done. congruence.
Qed.

(** Requantisation is defined for every float but NaN. *)
Theorem float_to_s16_defined (f : float) :
  valid f = true -> is_nan f = false -> is_Some (float_to_s16 f).
Proof.
  intros Hf Hnan.
  assert (valid (mul f c32767) = true) as Hv
    by (apply mul_valid; [done|reflexivity]).
  assert (is_nan (mul f c32767) = false) as Hn.
  { apply mul_finite_not_nan; try done. right. split; discriminate. }
  destruct (mul f c32767) as [s|s| |s m e] eqn:E; try done.
  - rewrite float_to_s16_toInt16; [done|done|by rewrite E].
  - unfold float_to_s16. rewrite E. by destruct s.
  - rewrite float_to_s16_toInt16; [done|done|by rewrite E].
Qed.


(** *** Absence of overflow *)

Lemma rne_no_round_bit (r : shr_record) :
  shr_r r = false ->
  round_nearest_even (shr_m r) (loc_of_shr_record r) = shr_m r.
Proof. destruct r as [m [] []]; done. Qed.

Lemma shr_fexp_round_bit (m e : Z) :
  0 <= m ->
  shr_r (fst (shr_fexp prec emax m e loc_Exact)) = true ->
  let n := fexp prec emax (Zdigits2 m + e) - e in
  0 < n /\ Z.testbit m (n - 1) = true.
Proof.
  intros Hm. unfold shr_fexp, shr. cbv zeta.
  destruct (fexp prec emax (Zdigits2 m + e) - e) as [|p|p]; try done.
  cbn [fst]. rewrite iter_pos_nat.
  destruct (Pos2Nat.is_succ p) as [k Hk]. rewrite Hk.
  rewrite shr_iter_round by done. cbn [shr_record_of_loc shr_m].
  intros Hbit. split; [lia|].
  replace (Zpos p - 1) with (Z.of_nat k) by lia. done.
Qed.

Lemma testbit_lower (m k : Z) :
  0 <= m -> 0 <= k -> Z.testbit m k = true ->
  2 ^ k * (2 * (m / 2 ^ (k + 1)) + 1) <= m.
Proof.
  intros Hm Hk Hbit. apply Z.testbit_true in Hbit; [|done].
  assert (0 < 2 ^ k) by (apply Z.pow_pos_nonneg; lia).
  rewrite Z.pow_add_r, Z.pow_1_r, <- Z.div_div by lia.
  pose proof (Z.div_mod (m / 2 ^ k) 2 ltac:(lia)) as Hq.
  pose proof (Z.mul_div_le m (2 ^ k) ltac:(lia)).
  rewrite Hbit in Hq. rewrite <- Hq. done.
Qed.

Lemma Zdigits2_lt_pow (m k : Z) :
  0 <= k -> 0 <= m < 2 ^ k -> Zdigits2 m <= k.
Proof.
  intros Hk [H0 Hlt]. destruct (Z.eq_dec m 0) as [->|]; [simpl; lia|].
  pose proof (Zdigits2_bounds m ltac:(lia)) as [Hlo _].
  destruct (Z.le_gt_cases (Zdigits2 m) k) as [|Hgt]; [done|].
  assert (2 ^ k <= 2 ^ (Zdigits2 m - 1)) by (apply Z.pow_le_mono_r; lia).
  lia.
Qed.

Lemma Zdigits2_succ (m : Z) : 0 <= m -> Zdigits2 (m + 1) <= Zdigits2 m + 1.
Proof.
  intros Hm. pose proof (Zdigits2_nonneg m).
  destruct (Z.eq_dec m 0) as [->|]; [simpl; lia|].
  pose proof (Zdigits2_bounds m ltac:(lia)) as [_ Hhi].
  apply Zdigits2_lt_pow; [lia|]. rewrite Z.pow_add_r, Z.pow_1_r by lia. lia.
Qed.

Theorem binary_round_aux_finite (s : bool) (m : positive) (e : Z) :
  -149 <= e -> e <= fexp prec emax (Zdigits2 (Zpos m) + e) ->
  Zpos m * 2 ^ (e + 149) < overflow_threshold ->
  is_finite (binary_round_aux prec emax s (Zpos m) e loc_Exact) = true.
Proof.
  intros Hemin He Hval. unfold overflow_threshold in Hval.
  set (d := Zdigits2 (Zpos m)) in *.
  assert (0 < d) as Hd by done.
  pose proof (Zdigits2_bounds (Zpos m) ltac:(lia)) as [Hlo Hhi]. fold d in Hlo, Hhi.
  assert (0 < 2 ^ (e + 149)) as HP by (apply Z.pow_pos_nonneg; lia).
  assert (0 < 2 ^ 252) as HB by (apply Z.pow_pos_nonneg; lia).
  (* the value is below [2 ^ 128] *)
  assert (d + e <= 128) as Hde.
  { destruct (Z.le_gt_cases (d + e) 128) as [|Hgt]; [done|exfalso].
    assert (2 ^ 277 <= 2 ^ (d - 1 + (e + 149)))
      by (apply Z.pow_le_mono_r; lia).
    rewrite Z.pow_add_r in * by lia.
    change (2 ^ 277) with (2 ^ 25 * 2 ^ 252) in *.
    change (2 ^ 25) with 33554432 in *.
    set (P := 2 ^ (e + 149)) in *. set (B := 2 ^ 252) in *.
    set (L := 2 ^ (d - 1)) in *. clearbody P B L. nia. }
  unfold binary_round_aux.
  pose proof (shr_fexp_canonical (Zpos m) e loc_Exact ltac:(lia) He) as H1.
  pose proof (shr_fexp_spec (Zpos m) e loc_Exact ltac:(lia)) as Hs1.
  pose proof (shr_fexp_round_bit (Zpos m) e ltac:(lia)) as Hbit.
  destruct (shr_fexp prec emax (Zpos m) e loc_Exact) as [r1 e1].
  cbn [fst snd] in Hs1, Hbit. cbv zeta in Hs1, Hbit. fold d in Hs1, Hbit.
  destruct H1 as (He1 & Hm1 & Hd1 & Hz1). fold d in He1, Hd1.
  destruct Hs1 as [_ Hm1v].
  set (m2 := round_nearest_even (shr_m r1) (loc_of_shr_record r1)).
  pose proof (round_nearest_even_range (shr_m r1) (loc_of_shr_record r1))
    as Hm2. fold m2 in Hm2.
  (* the rounded mantissa stays below [2 ^ 128] as well *)
  assert (Zdigits2 m2 + e1 <= 128) as Hd2.
  { destruct (Z.eq_dec (shr_m r1) 0) as [H0|Hnz].
    - rewrite (Hz1 H0).
      assert (Zdigits2 m2 <= 1); [|lia].
      apply Zdigits2_lt_pow; [lia|]. change (2 ^ 1) with 2. lia.
    - specialize (Hd1 ltac:(lia)).
      assert (Zdigits2 m2 <= Zdigits2 (shr_m r1 + 1))
        by (apply Zdigits2_le; lia).
      pose proof (Zdigits2_succ (shr_m r1) Hm1).
      destruct (Z.eq_dec (d + e) 128) as [E128|]; [|lia].
      (* the top binade: rounding up to [2 ^ 24] would need a value of at
         least the threshold *)
      rewrite fexp_eq in He1.
      assert (e1 = 104) as -> by lia.
      assert (Zdigits2 (shr_m r1) = 24) as Hd24 by lia.
      pose proof (Zdigits2_bounds (shr_m r1) ltac:(lia)) as [_ Hm1hi].
      rewrite Hd24 in Hm1hi.
      destruct (Z.eq_dec m2 (shr_m r1)) as [->|Hup]; [lia|].
      assert (shr_r r1 = true) as Hr.
      { destruct (shr_r r1) eqn:Hr; [done|].
        exfalso. apply Hup. by apply rne_no_round_bit. }
      destruct (Hbit Hr) as [Hn Htb]. rewrite fexp_eq in Hn, Htb, Hm1v.
      replace (Z.max (d + e - 24) (-149) - e) with (104 - e) in * by lia.
      replace (Z.max (104 - e) 0) with (104 - e) in Hm1v by lia.
      pose proof (testbit_lower (Zpos m) (104 - e - 1) ltac:(lia) ltac:(lia)
                    Htb) as Hlow.
      replace (104 - e - 1 + 1) with (104 - e) in Hlow by lia.
      rewrite <- Hm1v in Hlow.
      destruct (Z.le_gt_cases (Zdigits2 m2) 24) as [|Hgt]; [lia|exfalso].
      assert (shr_m r1 = 2 ^ 24 - 1) as Em1.
      { destruct (Z.lt_ge_cases m2 (2 ^ 24)) as [Hlt|Hge]; [|lia].
        pose proof (Zdigits2_lt_pow m2 24 ltac:(lia) ltac:(lia)). lia. }
      rewrite Em1 in Hlow.
      assert (2 ^ 252 = 2 ^ (104 - e - 1) * 2 ^ (e + 149)) as E252.
      { rewrite <- Z.pow_add_r by lia. f_equal. lia. }
      rewrite E252 in Hval.
      assert (0 < 2 ^ (104 - e - 1)) by (apply Z.pow_pos_nonneg; lia).
      change (2 ^ 24) with 16777216 in *. change (2 ^ 25) with 33554432 in *.
      set (P := 2 ^ (e + 149)) in *. set (K := 2 ^ (104 - e - 1)) in *.
      clearbody P K. nia. }
  assert (e1 <= fexp prec emax (Zdigits2 m2 + e1)) as He2.
  { destruct (Z.eq_dec (shr_m r1) 0) as [H0|].
    - rewrite (Hz1 H0), fexp_eq. lia.
    - pose proof (Zdigits2_le (shr_m r1) m2 ltac:(lia)).
      specialize (Hd1 ltac:(lia)). rewrite !fexp_eq in *. lia. }
  destruct (Z.eq_dec m2 0) as [Hz|Hnz].
  - pose proof (shr_fexp_spec m2 e1 loc_Exact ltac:(lia)) as Hs.
    destruct (shr_fexp prec emax m2 e1 loc_Exact) as [r2 e2].
    simpl in Hs. destruct Hs as [_ ->]. rewrite Hz, Z.div_0_l; [done|].
    apply Z.pow_nonzero; lia.
  - pose proof (shr_fexp_canonical m2 e1 loc_Exact ltac:(lia) He2) as H2.
    destruct (shr_fexp prec emax m2 e1 loc_Exact) as [r2 e2].
    destruct H2 as (He2' & Hm2' & _ & _).
    destruct (shr_m r2) as [|mf|mf]; [done| |lia].
    destruct (Z.leb_spec e2 (emax - prec)) as [|Hgt]; [done|].
    unfold emax, prec in Hgt. rewrite fexp_eq in He2'. lia.
Qed.


Theorem binary_round_finite (s : bool) (p : positive) (e : Z) :
  -149 <= e -> Zpos p * 2 ^ (e + 149) < overflow_threshold ->
  is_finite (binary_round prec emax s p e) = true.
Proof.
  intros He Hval. unfold binary_round.
  pose proof (shl_align_spec p e (fexp prec emax (Zpos (digits2_pos p) + e)))
    as [Hez Hmz].
  destruct (shl_align _ _ _) as [mz ez]. cbn [fst snd] in Hez, Hmz.
  rewrite fexp_eq in Hez, Hmz.
  apply binary_round_aux_finite.
  - lia.
  - rewrite Hmz, Zdigits2_mul_pow2 by lia. cbn [Zdigits2].
    rewrite !fexp_eq. lia.
  - rewrite Hmz, <- Z.mul_assoc, <- Z.pow_add_r by lia.
    replace (e - Z.min e (Z.max (Zpos (digits2_pos p) + e - 24) (-149))
             + (ez + 149)) with (e + 149) by lia.
    done.
Qed.

(** The magnitude of a valid float, in units of [2 ^ -149]. *)
Lemma units_bound (x : float) :
  valid x = true -> Z.abs (units x) <= (2 ^ 24 - 1) * 2 ^ 253.
Proof.
  destruct x as [sx|sx| |s m e]; try done. intros Hx.
  apply valid_finite_bounds in Hx as (He & Hhi & _). unfold units.
  assert (2 ^ (e + 149) <= 2 ^ 253) by (apply Z.pow_le_mono_r; lia).
  assert (0 < 2 ^ (e + 149)) by (apply Z.pow_pos_nonneg; lia).
  change (2 ^ 24) with 16777216 in *.
  set (P := 2 ^ (e + 149)) in *. set (B := 2 ^ 253) in *. clearbody P B.
  destruct s; cbn [cond_Zopp]; nia.
Qed.

Lemma shl_align_units (s : bool) (m : positive) (e e' : Z) :
  -149 <= e -> -149 <= e' ->
  cond_Zopp s (Zpos (fst (shl_align m e (Z.min e e'))))
    * 2 ^ (Z.min e e' + 149)
  = units (S754_finite s m e).
Proof.
  intros He He'.
  pose proof (shl_align_spec m e (Z.min e e')) as [_ Hm].
  rewrite Hm. replace (Z.min e (Z.min e e')) with (Z.min e e') by lia.
  unfold units.
  replace (e + 149) with (e - Z.min e e' + (Z.min e e' + 149)) by lia.
  rewrite (Z.pow_add_r 2 (e - Z.min e e')) by lia.
  destruct s; cbn [cond_Zopp]; ring.
Qed.

(** Subtracting any finite float from one of magnitude at most 1 does not
    overflow. *)
Theorem sub_small_finite (x y : float) :
  valid x = true -> valid y = true ->
  is_finite x = true -> is_finite y = true ->
  Z.abs (units x) <= 2 ^ 149 ->
  is_finite (sub x y) = true.
Proof.
  destruct x as [sx|sx| |sx mx ex], y as [sy|sy| |sy my ey]; try done;
    try (by destruct sx, sy).
  intros Hx Hy _ _ Hsmall.
  pose proof (units_bound _ Hy) as Hyb.
  apply valid_finite_bounds in Hx as (Hex & _ & _).
  apply valid_finite_bounds in Hy as (Hey & _ & _).
  unfold sub, SFsub. cbv zeta.
  pose proof (shl_align_units sx mx ex ey ltac:(lia) ltac:(lia)) as Ux.
  pose proof (shl_align_units sy my ey ex ltac:(lia) ltac:(lia)) as Uy.
  rewrite (Z.min_comm ey ex) in Uy.
  set (ez := Z.min ex ey) in *.
  set (A := cond_Zopp sx (Zpos (fst (shl_align mx ex ez)))
            - cond_Zopp sy (Zpos (fst (shl_align my ey ez)))).
  assert (A * 2 ^ (ez + 149)
          = units (S754_finite sx mx ex) - units (S754_finite sy my ey)) as HA.
  { unfold A. rewrite Z.mul_sub_distr_r, Ux, Uy. done. }
  assert (Z.abs (A * 2 ^ (ez + 149)) < overflow_threshold) as Hlt.
  { rewrite HA. unfold overflow_threshold.
    assert (2 ^ 149 < 2 ^ 252) by (apply Z.pow_lt_mono_r; lia).
    change (2 ^ 253) with (2 * 2 ^ 252) in Hyb.
    change (2 ^ 24) with 16777216 in *. change (2 ^ 25) with 33554432.
    set (U := 2 ^ 149) in *. set (B := 2 ^ 252) in *.
    set (ux := units (S754_finite sx mx ex)) in *.
    set (uy := units (S754_finite sy my ey)) in *.
    clearbody U B ux uy. lia. }
  assert (0 < 2 ^ (ez + 149)) by (apply Z.pow_pos_nonneg; lia).
  unfold binary_normalize. destruct A as [|p|p]; [done| |];
    apply binary_round_finite; lia.
Qed.

End F32Facts.

(** ** Buffer accesses and the two inner loops *)

Lemma store_length samples index v samples' :
  store samples index v = Some samples' -> length samples' = length samples.
Proof.
  unfold store. intros H. case_match; simplify_eq. by rewrite length_insert.
Qed.

Lemma store_lookup_ne samples index v samples' (p : nat) :
  store samples index v = Some samples' -> Z.of_nat p <> index ->
  samples' !! p = samples !! p.
Proof.
  unfold store. intros H Hp. case_match; simplify_eq.
  apply list_lookup_insert_ne. lia.
Qed.

Lemma store_lookup_eq samples index v samples' :
  store samples index v = Some samples' ->
  samples' !! Z.to_nat index = Some v.
Proof.
  unfold store. intros H. case_match; simplify_eq.
  apply list_lookup_insert_eq. lia.
Qed.

Lemma store_defined samples index v :
  0 <= index < Z.of_nat (length samples) ->
  exists samples', store samples index v = Some samples'.
Proof.
  intros H. unfold store.
  replace ((0 <=? index) && (index <? Z.of_nat (length samples))) with true.
  - by eexists.
  - symmetry. apply andb_true_iff. split; [apply Z.leb_le|apply Z.ltb_lt]; lia.
Qed.

Lemma load_Some samples index s :
  load samples index = Some s <->
  0 <= index /\ samples !! Z.to_nat index = Some s.
Proof.
  unfold load. destruct (0 <=? index) eqn:H.
  - apply Z.leb_le in H. split; [by intros ->|by intros [_ ->]].
  - apply Z.leb_gt in H. split; [done|lia].
Qed.

Lemma deinterleave_spec samples channels (n : nat) :
  forall pos read,
    deinterleave samples channels pos n = Some read ->
    length read = n /\
    forall i : nat, (i < n)%nat ->
      exists s,
        load samples ((pos + Z.of_nat i) * channels) = Some s /\
        read !! i = Some (s16_to_float s).
Proof.
  induction n as [|n IH]; intros pos read H; simpl in H.
  - simplify_eq. split; [done|]. intros i Hi. lia.
  - destruct (load samples (pos * channels)) as [s|] eqn:Hs; [|done].
    simpl in H.
    destruct (deinterleave samples channels (pos + 1) n) as [rest|] eqn:Hr;
      [|done].
    simpl in H. simplify_eq. apply IH in Hr as [Hlen Hr]. split.
    + simpl. by rewrite Hlen.
    + intros [|i] Hi.
      * exists s. by rewrite Z.add_0_r.
      * destruct (Hr i ltac:(lia)) as (s' & Hl & Hi').
        exists s'. split; [|done].
        by replace (pos + Z.of_nat (S i)) with (pos + 1 + Z.of_nat i) by lia.
Qed.

Lemma deinterleave_defined samples channels (n : nat) :
  forall pos,
    (forall i : nat, (i < n)%nat ->
       0 <= (pos + Z.of_nat i) * channels < Z.of_nat (length samples)) ->
    exists read, deinterleave samples channels pos n = Some read.
Proof.
  induction n as [|n IH]; intros pos H; simpl; [by eexists|].
  destruct (H 0%nat ltac:(lia)) as [H0 H1]. rewrite Z.add_0_r in H0, H1.
  destruct (lookup_lt_is_Some_2 samples (Z.to_nat (pos * channels)))
    as [s Hs]; [lia|].
  assert (load samples (pos * channels) = Some s) as ->
    by (by apply load_Some).
  destruct (IH (pos + 1)) as [rest ->]; [|by eexists].
  intros i Hi. specialize (H (S i) ltac:(lia)).
  by replace (pos + 1 + Z.of_nat i) with (pos + Z.of_nat (S i)) by lia.
Qed.

Lemma reinterleave_frame float_out channels :
  forall pos samples samples',
    reinterleave float_out channels pos samples = Some samples' ->
    length samples' = length samples /\
    forall p : nat,
      (forall j, pos <= j < pos + Z.of_nat (length float_out) ->
                 Z.of_nat p <> j * channels) ->
      samples' !! p = samples !! p.
Proof.
  induction float_out as [|f rest IH]; intros pos samples samples' H.
  - simpl in H. by simplify_eq.
  - simpl in H.
    destruct (float_to_s16 f) as [v|]; [|done]. simpl in H.
    destruct (store samples (pos * channels) v) as [s1|] eqn:Hst; [|done].
    simpl in H. apply IH in H as [Hlen Hp]. split.
    + rewrite Hlen. by eapply store_length.
    + intros p Hnot. rewrite Hp.
      * eapply store_lookup_ne; [done|]. apply Hnot. simpl length. lia.
      * intros j Hj. apply Hnot. simpl length. lia.
Qed.

Lemma reinterleave_spec float_out channels :
  0 < channels ->
  forall pos samples samples',
    0 <= pos ->
    reinterleave float_out channels pos samples = Some samples' ->
    forall (i : nat) f, float_out !! i = Some f ->
      exists v, float_to_s16 f = Some v /\
                samples' !! Z.to_nat ((pos + Z.of_nat i) * channels) = Some v.
Proof.
  intros Hc.
  induction float_out as [|f0 rest IH]; intros pos samples samples' Hpos H i f Hi;
    [done|].
  simpl in H.
  destruct (float_to_s16 f0) as [v0|] eqn:Hv0; [|done]. simpl in H.
  destruct (store samples (pos * channels) v0) as [s1|] eqn:Hst; [|done].
  simpl in H. destruct i as [|i]; simpl in Hi.
  - simplify_eq. exists v0. split; [done|].
    apply reinterleave_frame in H as [_ Hp]. rewrite Z.add_0_r, Hp.
    + by eapply store_lookup_eq.
    + intros j Hj. nia.
  - destruct (IH (pos + 1) s1 samples' ltac:(lia) H i f Hi) as (v & Hv & Hl).
    exists v. split; [done|].
    by replace (pos + Z.of_nat (S i)) with (pos + 1 + Z.of_nat i) by lia.
Qed.

Lemma reinterleave_defined float_out channels :
  forall pos samples,
    (forall f, f ∈ float_out -> is_Some (float_to_s16 f)) ->
    (forall i : nat, (i < length float_out)%nat ->
       0 <= (pos + Z.of_nat i) * channels < Z.of_nat (length samples)) ->
    exists samples', reinterleave float_out channels pos samples = Some samples'.
Proof.
  induction float_out as [|f rest IH]; intros pos samples Hf Hi; simpl;
    [by eexists|].
  destruct (Hf f) as [v ->]; [by left|]. simpl.
  destruct (store_defined samples (pos * channels) v) as [s1 Hs1].
  { specialize (Hi 0%nat ltac:(simpl; lia)). by rewrite Z.add_0_r in Hi. }
  rewrite Hs1. simpl. apply IH.
  - intros f' Hin. apply Hf. by right.
  - intros i Hlt. rewrite (store_length _ _ _ _ Hs1).
    specialize (Hi (S i) ltac:(simpl; lia)).
    by replace (pos + 1 + Z.of_nat i) with (pos + Z.of_nat (S i)) by lia.
Qed.

Lemma float_to_s16_int16 f v : float_to_s16 f = Some v -> int16 v.
Proof.
  unfold float_to_s16, int16.
  destruct (F32.leb _ _); [intros [= <-]; lia|].
  destruct (F32.leb _ _); [intros [= <-]; lia|].
  unfold F32.to_int16. destruct (F32.truncate _) as [z|]; simpl; [|done].
  destruct ((-32768 <=? z) && (z <=? 32767)) eqn:E; [|done].
  intros [= <-]. apply andb_true_iff in E. lia.
Qed.

Section PipelineFacts.
Context {DenoiseState : Type}.
Variable rnnoise_process_frame :
  DenoiseState -> list float -> DenoiseState * (nat -> float).
Variables (samples_per_channel channels : Z).
Variables (strength gateThreshold : float) (useSpectralGating : bool).

Local Abbreviation frame_body :=
  (process_frame rnnoise_process_frame channels strength gateThreshold
     useSpectralGating).
Local Abbreviation loop fuel :=
  (frame_loop rnnoise_process_frame fuel samples_per_channel channels
     strength gateThreshold useSpectralGating).
Local Abbreviation requantized original denoised :=
  (float_to_s16
     (enhance strength gateThreshold useSpectralGating original denoised)).

Lemma frame_loop_eq fuel frame_start_sample st samples tr :
  loop fuel frame_start_sample st samples tr =
  if frame_start_sample <? samples_per_channel then
    let samples_in_this_frame :=
      Z.min RNNOISE_FRAME_SIZE (samples_per_channel - frame_start_sample) in
    if samples_in_this_frame <=? 0 then Returns (st, samples, tr)
    else
      match frame_body frame_start_sample samples_in_this_frame st samples with
      | None => Undefined
      | Some (st', samples', call) =>
          if INT_MAX <? frame_start_sample + RNNOISE_FRAME_SIZE
          then Undefined
          else
            match fuel with
            | O => OutOfFuel
            | S fuel' =>
                loop fuel' (frame_start_sample + RNNOISE_FRAME_SIZE) st'
                  samples' (tr ++ [call])
            end
      end
  else Returns (st, samples, tr).
Proof. destruct fuel; reflexivity. Qed.

Lemma process_frame_writes frame_start_sample n st samples st' samples' call :
  frame_body frame_start_sample n st samples = Some (st', samples', call) ->
  length samples' = length samples /\
  forall p : nat,
    (forall j, frame_start_sample <= j < frame_start_sample + n ->
               Z.of_nat p <> j * channels) ->
    samples' !! p = samples !! p.
Proof.
  unfold process_frame. intros H.
  destruct (deinterleave _ _ _ _) as [read|]; [|done]. simpl in H.
  destruct (rnnoise_process_frame _ _) as [st1 denoised].
  destruct (reinterleave _ _ _ _) as [s1|] eqn:Hre; [|done].
  simpl in H. simplify_eq.
  apply reinterleave_frame in Hre as [Hlen Hp]. split; [done|].
  intros p Hnot. apply Hp. intros j Hj. apply Hnot.
  rewrite length_take in Hj. lia.
Qed.

(** What one frame computes: the model receives the normalised samples of
    channel 0, and each of them is replaced by its requantised blend. *)
Lemma process_frame_spec frame_start_sample n st samples st' samples' call :
  0 < channels -> 0 <= frame_start_sample -> 0 <= n <= RNNOISE_FRAME_SIZE ->
  frame_body frame_start_sample n st samples = Some (st', samples', call) ->
  exists float_in denoised,
    call = Call_rnnoise_process_frame float_in denoised /\
    rnnoise_process_frame st float_in = (st', denoised) /\
    length float_in = Z.to_nat RNNOISE_FRAME_SIZE /\
    forall i : nat, Z.of_nat i < n ->
      let p := Z.to_nat ((frame_start_sample + Z.of_nat i) * channels) in
      exists s v,
        samples !! p = Some s /\
        float_in !! i = Some (s16_to_float s) /\
        requantized (s16_to_float s) (denoised i) = Some v /\
        samples' !! p = Some v.
Proof.
  unfold process_frame, RNNOISE_FRAME_SIZE. intros Hc Hfs Hn H.
  destruct (deinterleave _ _ _ _) as [read|] eqn:Hread; [|done]. simpl in H.
  destruct (rnnoise_process_frame _ _) as [st1 denoised] eqn:Hmodel.
  destruct (reinterleave _ _ _ _) as [s1|] eqn:Hre; [|done].
  simpl in H. simplify_eq.
  apply deinterleave_spec in Hread as [Hlen Hread].
  eexists _, denoised. split; [done|]. split; [done|]. split.
  { rewrite length_app, length_replicate, Hlen. lia. }
  intros i Hi.
  destruct (Hread i ltac:(lia)) as (s & Hload & Hri).
  apply load_Some in Hload as [_ Hload].
  assert ((read ++ replicate (Z.to_nat 480 - Z.to_nat n) F32.zero) !! i
          = Some (s16_to_float s)) as Hin.
  { rewrite lookup_app_l by lia. done. }
  destruct (reinterleave_spec _ _ Hc _ _ _ Hfs Hre i
              (enhance strength gateThreshold useSpectralGating
                 (s16_to_float s) (denoised i))) as (v & Hv & Hw).
  { rewrite lookup_take_lt by lia. by rewrite list_lookup_imap, Hin. }
  by exists s, v.
Qed.

Lemma frame_loop_writes fuel :
  forall frame_start_sample st samples tr st' samples' tr',
    loop fuel frame_start_sample st samples tr = Returns (st', samples', tr') ->
    0 <= frame_start_sample ->
    length samples' = length samples /\
    forall p : nat,
      (forall j, frame_start_sample <= j < samples_per_channel ->
                 Z.of_nat p <> j * channels) ->
      samples' !! p = samples !! p.
Proof.
  induction fuel as [|fuel IH]; intros fs st samples tr st' samples' tr' H H0;
    rewrite frame_loop_eq in H; cbv zeta in H;
    (destruct (fs <? samples_per_channel) eqn:Hlt; [|by simplify_eq]);
    (destruct (Z.min _ _ <=? 0) eqn:Hle; [by simplify_eq|]);
    (destruct (process_frame _ _ _ _ _ _ _ _ _) as [[[st1 s1] call]|] eqn:Hf;
       [|done]);
    (destruct (INT_MAX <? _); [done|]); [done|].
  apply process_frame_writes in Hf as [Hlen1 Hp1].
  unfold RNNOISE_FRAME_SIZE in *.
  apply IH in H as [Hlen Hp]; [|lia].
  split; [congruence|]. intros p Hnot. rewrite Hp.
  - apply Hp1. intros j Hj. apply Hnot. lia.
  - intros j Hj. apply Hnot. lia.
Qed.

Lemma model_calls_app (tr1 tr2 : list event) :
  model_calls (tr1 ++ tr2) = model_calls tr1 ++ model_calls tr2.
Proof.
  induction tr1 as [|[] tr1 IH]; simpl; rewrite ?IH; reflexivity.
Qed.

(** What the frame loop computes: one call of the model for each frame, in
    order, and each sample of channel 0 replaced by its requantised blend
    with the model's output for its position. *)
Lemma frame_loop_spec fuel :
  0 < channels ->
  forall frame_start_sample st samples tr st' samples' tr',
    loop fuel frame_start_sample st samples tr = Returns (st', samples', tr') ->
    0 <= frame_start_sample ->
    exists calls,
      model_calls tr' = model_calls tr ++ calls /\
      (forall k : nat,
          is_Some (calls !! k) <->
          frame_start_sample + RNNOISE_FRAME_SIZE * Z.of_nat k
            < samples_per_channel) /\
      forall (k : nat) float_in denoised,
        calls !! k = Some (float_in, denoised) ->
        (exists st0, snd (rnnoise_process_frame st0 float_in) = denoised) /\
        forall i : nat,
          let start := frame_start_sample + RNNOISE_FRAME_SIZE * Z.of_nat k in
          Z.of_nat i < Z.min RNNOISE_FRAME_SIZE (samples_per_channel - start) ->
          let p := Z.to_nat ((start + Z.of_nat i) * channels) in
          exists s v,
            samples !! p = Some s /\
            float_in !! i = Some (s16_to_float s) /\
            requantized (s16_to_float s) (denoised i) = Some v /\
            samples' !! p = Some v.
Proof.
  intros Hc.
  induction fuel as [|fuel IH]; intros fs st samples tr st' samples' tr' H H0;
    rewrite frame_loop_eq in H; cbv zeta in H;
    (destruct (fs <? samples_per_channel) eqn:Hlt;
       [|simplify_eq; exists []; rewrite app_nil_r; split; [done|];
         split; [|done]; intros k; rewrite lookup_nil;
         unfold RNNOISE_FRAME_SIZE; split; [by intros []|lia]]);
    (destruct (Z.min _ _ <=? 0) eqn:Hle;
       [unfold RNNOISE_FRAME_SIZE in Hle; lia|]);
    (destruct (process_frame _ _ _ _ _ _ _ _ _) as [[[st1 s1] call]|] eqn:Hf;
       [|done]);
    (destruct (INT_MAX <? _); [done|]); [done|].
  unfold RNNOISE_FRAME_SIZE in *.
  pose proof (process_frame_writes _ _ _ _ _ _ _ Hf) as [Hlen1 Hp1].
  apply process_frame_spec in Hf
    as (fin & den & -> & Hmodel & Hfin & Hframe);
    [|done|done|unfold RNNOISE_FRAME_SIZE; lia].
  pose proof (frame_loop_writes _ _ _ _ _ _ _ _ H ltac:(lia)) as [Hlen2 Hp2].
  apply IH in H as (calls & Htr & Hcalls & Hrest); [|lia].
  exists ((fin, den) :: calls). split; [|split].
  - rewrite Htr, model_calls_app. simpl. by rewrite <- app_assoc.
  - intros [|k]; simpl.
    + split; [lia|by eexists].
    + rewrite Hcalls. lia.
  - intros [|k] fin' den' Hk; simpl in Hk; cbv zeta.
    + simplify_eq. split; [exists st; by rewrite Hmodel|]. intros i Hi.
      destruct (Hframe i ltac:(lia)) as (s & v & Hs & Hi' & Hv & Hw).
      replace (fs + 480 * Z.of_nat 0) with fs by lia.
      exists s, v. repeat split; try done.
      rewrite Hp2; [done|]. intros j Hj. nia.
    + destruct (Hrest k fin' den' Hk) as [Hout Hrest'].
      split; [done|]. intros i Hi.
      replace (fs + 480 * Z.of_nat (S k)) with (fs + 480 + 480 * Z.of_nat k)
        in * by lia.
      destruct (Hrest' i Hi) as (s & v & Hs & Hi' & Hv & Hw).
      exists s, v. repeat split; try done.
      rewrite <- Hp1; [done|]. intros j Hj. nia.
Qed.

Lemma frame_loop_fuel fuel :
  forall frame_start_sample st samples tr,
    samples_per_channel - frame_start_sample
      <= RNNOISE_FRAME_SIZE * Z.of_nat fuel ->
    loop fuel frame_start_sample st samples tr <> OutOfFuel.
Proof.
  unfold RNNOISE_FRAME_SIZE.
  induction fuel as [|fuel IH]; intros fs st samples tr Hfuel;
    rewrite frame_loop_eq; cbv zeta;
    (destruct (fs <? samples_per_channel) eqn:Hlt; [|done]);
    (destruct (Z.min _ _ <=? 0); [done|]);
    (destruct (process_frame _ _ _ _ _ _ _ _ _) as [[[st1 s1] call]|];
       [|done]);
    (destruct (INT_MAX <? _); [done|]).
  - lia.
  - apply IH. unfold RNNOISE_FRAME_SIZE. lia.
Qed.

Lemma frame_loop_empty fuel frame_start_sample st samples tr :
  samples_per_channel <= frame_start_sample ->
  loop fuel frame_start_sample st samples tr = Returns (st, samples, tr).
Proof.
  intros H. rewrite frame_loop_eq.
  destruct (frame_start_sample <? samples_per_channel) eqn:Hlt; [lia|done].
Qed.


Lemma reinterleave_int16 float_out :
  forall pos samples samples',
    Forall int16 samples ->
    reinterleave float_out channels pos samples = Some samples' ->
    Forall int16 samples'.
Proof.
  induction float_out as [|f rest IH]; intros pos samples samples' Hall H;
    simpl in H; [by simplify_eq|].
  destruct (float_to_s16 f) as [v|] eqn:Hv; [|done]. simpl in H.
  destruct (store samples (pos * channels) v) as [s1|] eqn:Hst; [|done].
  simpl in H. eapply IH; [|done].
  unfold store in Hst. case_match; simplify_eq.
  apply Forall_insert; [done|]. by eapply float_to_s16_int16.
Qed.

(** A frame is processed without undefined behaviour when its samples lie
    inside the buffer and every blend can be requantised; the model is
    consulted on the current state and on a frame of the pipeline only. *)
Lemma process_frame_defined (I : DenoiseState -> Prop)
    (D : float -> float -> Prop) frame_start_sample n st samples :
  0 < channels -> 0 <= frame_start_sample -> 0 <= n <= RNNOISE_FRAME_SIZE ->
  (frame_start_sample + n) * channels <= Z.of_nat (length samples) ->
  Forall int16 samples ->
  model_outputs rnnoise_process_frame I D ->
  (forall s d, int16 s -> D (s16_to_float s) d ->
               is_Some (requantized (s16_to_float s) d)) ->
  I st ->
  exists st' samples' call,
    frame_body frame_start_sample n st samples = Some (st', samples', call) /\
    Forall int16 samples' /\ I st'.
Proof.
  unfold RNNOISE_FRAME_SIZE. intros Hc Hfs Hn Hlen Hall HD Hreq HI.
  assert (forall i : nat, (i < Z.to_nat n)%nat ->
            0 <= (frame_start_sample + Z.of_nat i) * channels
              < Z.of_nat (length samples)) as Hidx by (intros i Hi; nia).
  unfold process_frame.
  destruct (deinterleave_defined samples channels (Z.to_nat n)
              frame_start_sample Hidx) as [read Hread].
  rewrite Hread. simpl.
  apply deinterleave_spec in Hread as [Hrl Hread].
  set (float_in :=
         read ++ replicate (Z.to_nat RNNOISE_FRAME_SIZE - Z.to_nat n) F32.zero).
  assert (forall i : nat, (i < Z.to_nat n)%nat ->
            exists s, int16 s /\ float_in !! i = Some (s16_to_float s))
    as Hin.
  { intros i Hi. destruct (Hread i Hi) as (s & Hload & Hri).
    exists s. split.
    - apply load_Some in Hload as [_ Hload].
      by eapply (Forall_lookup_1 int16).
    - unfold float_in. by rewrite lookup_app_l by lia. }
  assert (pipeline_frame float_in) as Hframe.
  { split.
    - unfold float_in, RNNOISE_FRAME_SIZE.
      rewrite length_app, length_replicate, Hrl. lia.
    - intros i x Hi.
      destruct (Nat.lt_ge_cases i (Z.to_nat n)) as [Hlt|Hge].
      + destruct (Hin i Hlt) as (s & Hs & Hi'). exists s.
        split; [done|]. congruence.
      + unfold float_in in Hi. rewrite lookup_app_r in Hi by lia.
        apply lookup_replicate in Hi as [-> _].
        exists 0. split; [unfold int16; lia|reflexivity]. }
  destruct (HD st float_in HI Hframe) as [HI' Hout].
  destruct (rnnoise_process_frame st float_in) as [st1 denoised].
  cbn [fst snd] in HI', Hout.
  match goal with |- context [reinterleave ?fo ?c ?p ?b] =>
    destruct (reinterleave_defined fo c p b) as [s1 Hs1] end.
  - intros f Hf. apply list_elem_of_lookup in Hf as [i Hi].
    apply lookup_take_Some in Hi as [Hi Hlt].
    rewrite list_lookup_imap in Hi.
    destruct (Hin i Hlt) as (s & Hs & Hi').
    rewrite Hi' in Hi. simpl in Hi. simplify_eq.
    apply Hreq; [done|]. by apply Hout.
  - intros i Hi. apply Hidx. rewrite length_take in Hi. lia.
  - rewrite Hs1. simpl. eexists _, _, _. split; [done|].
    split; [|done]. by eapply reinterleave_int16.
Qed.

Lemma frame_loop_defined (I : DenoiseState -> Prop)
    (D : float -> float -> Prop) fuel :
  0 < channels ->
  samples_per_channel + RNNOISE_FRAME_SIZE <= INT_MAX ->
  model_outputs rnnoise_process_frame I D ->
  (forall s d, int16 s -> D (s16_to_float s) d ->
               is_Some (requantized (s16_to_float s) d)) ->
  forall frame_start_sample st samples tr,
    0 <= frame_start_sample ->
    samples_per_channel * channels <= Z.of_nat (length samples) ->
    Forall int16 samples ->
    I st ->
    samples_per_channel - frame_start_sample
      <= RNNOISE_FRAME_SIZE * Z.of_nat fuel ->
    exists res, loop fuel frame_start_sample st samples tr = Returns res.
Proof.
  intros Hc Hmax HD Hreq.
  induction fuel as [|fuel IH]; intros fs st samples tr Hfs Hlen Hall HI Hfuel;
    rewrite frame_loop_eq; cbv zeta;
    (destruct (fs <? samples_per_channel) eqn:Hlt; [|by eexists]);
    (destruct (Z.min _ _ <=? 0) eqn:Hle; [by eexists|]);
    unfold RNNOISE_FRAME_SIZE in *; [lia|].
  destruct (process_frame_defined I D fs
              (Z.min 480 (samples_per_channel - fs)) st samples)
    as (st1 & s1 & call & Hf & Hall1 & HI1);
    try done; [unfold RNNOISE_FRAME_SIZE; lia|nia|].
  rewrite Hf.
  destruct (INT_MAX <? fs + 480) eqn:Hi; [lia|].
  apply process_frame_writes in Hf as [Hlen1 _].
  apply IH; try done; try lia.
Qed.

End PipelineFacts.

Import F32Facts.

(** ** The codec on samples *)

Lemma all_from_spec (n : nat) :
  forall lo f, all_from n lo f = true ->
               forall z, lo <= z < lo + Z.of_nat n -> f z = true.
Proof.
  induction n as [|n IH]; intros lo f H z Hz; [lia|].
  simpl in H. apply andb_true_iff in H as [H0 H].
  destruct (Z.eq_dec z lo) as [->|]; [done|].
  apply (IH (lo + 1)); [done|lia].
Qed.

Lemma s16_check_all : all_from (Z.to_nat 65536) (-32768) s16_check = true.
Proof. vm_compute. reflexivity. Qed.

Lemma s16_check_int16 (s : Z) : int16 s -> s16_check s = true.
Proof.
  intros Hs. apply (all_from_spec _ _ _ s16_check_all). unfold int16 in Hs.
  lia.
Qed.

Lemma s16_to_float_facts (s : Z) :
  int16 s ->
  F32.valid (s16_to_float s) = true /\
  F32.is_finite (s16_to_float s) = true /\
  F32.units (s16_to_float s) = s * 2 ^ 134 /\
  s16_to_float s <> S754_zero true /\
  float_to_s16 (s16_to_float s) = Some (toward_zero s) /\
  float_to_s16 (clamp (s16_to_float s)) = Some (toward_zero s).
Proof.
  intros Hs. pose proof (s16_check_int16 s Hs) as H. unfold s16_check in H.
  cbv zeta in H. repeat (apply andb_true_iff in H as [H ?]).
  repeat split; try done.
  - by apply Z.eqb_eq.
  - intros E. by rewrite E in *.
  - destruct (float_to_s16 (s16_to_float s)) as [v|]; [|done].
    f_equal. by apply Z.eqb_eq.
  - destruct (float_to_s16 (clamp (s16_to_float s))) as [v|]; [|done].
    f_equal. by apply Z.eqb_eq.
Qed.

Lemma s16_to_float_small (s : Z) :
  int16 s -> Z.abs (F32.units (s16_to_float s)) <= 2 ^ 149.
Proof.
  intros Hs. destruct (s16_to_float_facts s Hs) as (_ & _ & -> & _).
  change (2 ^ 149) with (32768 * 2 ^ 134).
  assert (0 < 2 ^ 134) by (apply Z.pow_pos_nonneg; lia).
  unfold int16 in Hs. set (P := 2 ^ 134) in *. clearbody P. nia.
Qed.

(** ** The blend, the gate and the clamp *)

Lemma gate_off (gateThreshold v : float) : gate gateThreshold false v = v.
Proof. reflexivity. Qed.

Lemma gate_valid gateThreshold useSpectralGating v :
  F32.valid v = true -> F32.is_nan v = false ->
  F32.valid (gate gateThreshold useSpectralGating v) = true /\
  F32.is_nan (gate gateThreshold useSpectralGating v) = false.
Proof. intros. unfold gate. by case_match. Qed.

Lemma clamp_valid v :
  F32.valid v = true -> F32.is_nan v = false ->
  F32.valid (clamp v) = true /\ F32.is_nan (clamp v) = false.
Proof. intros. unfold clamp. by repeat case_match. Qed.

(** A sample below the gate threshold is written as 0. *)
Lemma gated_requantized gateThreshold v :
  F32.ltb (F32.abs v) gateThreshold = true ->
  float_to_s16 (clamp (gate gateThreshold true v)) = Some 0.
Proof. intros H. unfold gate. rewrite H. reflexivity. Qed.

(** At strength 0 the blend is the original sample, whatever finite
    difference the model made. *)
Lemma blend_zero_strength original denoised :
  F32.is_finite original = true -> original <> S754_zero true ->
  F32.is_finite (F32.sub original denoised) = true ->
  blend F32.zero original denoised = original.
Proof.
  intros Ho Hz Hfin. unfold blend. cbv zeta.
  destruct (F32.sub original denoised) as [s|s| |s m e]; try done;
    destruct original as [[]|so| |so mo eo]; try done;
    destruct s; reflexivity.
Qed.

(** The blend of a sample with a finite model output at a finite strength
    is a float and not NaN. *)
Lemma blend_valid (s : Z) strength denoised :
  int16 s ->
  F32.valid denoised = true -> F32.is_finite denoised = true ->
  F32.valid strength = true -> F32.is_finite strength = true ->
  F32.valid (blend strength (s16_to_float s) denoised) = true /\
  F32.is_nan (blend strength (s16_to_float s) denoised) = false.
Proof.
  intros Hs Hd Hdf Hst Hstf.
  destruct (s16_to_float_facts s Hs) as (Hv & Hf & _).
  pose proof (s16_to_float_small s Hs) as Hsmall.
  pose proof (sub_small_finite _ _ Hv Hd Hf Hdf Hsmall) as Hnr.
  pose proof (sub_valid _ _ Hv Hd) as Hnrv.
  unfold blend. cbv zeta. split.
  - apply sub_valid; [done|]. by apply mul_valid.
  - apply sub_finite_not_nan; [done|].
    apply mul_finite_not_nan; try done; [|by left].
    by destruct (F32.sub (s16_to_float s) denoised).
Qed.

(** Every sample blended with a finite model output at a finite strength
    can be requantised. *)
Lemma enhance_requantized (s : Z) strength gateThreshold useSpectralGating
    denoised :
  int16 s ->
  F32.valid denoised = true -> F32.is_finite denoised = true ->
  F32.valid strength = true -> F32.is_finite strength = true ->
  is_Some (float_to_s16 (enhance strength gateThreshold useSpectralGating
                           (s16_to_float s) denoised)).
Proof.
  intros Hs Hd Hdf Hst Hstf.
  destruct (blend_valid s strength denoised) as [Hv Hn]; try done.
  destruct (gate_valid gateThreshold useSpectralGating _ Hv Hn) as [Hv' Hn'].
  destruct (clamp_valid _ Hv' Hn') as [Hv'' Hn''].
  by apply float_to_s16_defined.
Qed.

(** A product is NaN only for a NaN factor or for zero times infinity. *)
Lemma mul_not_nan (x y : float) :
  F32.valid x = true -> F32.valid y = true ->
  F32.is_nan x = false -> F32.is_nan y = false ->
  ~ (F32.is_finite x = false /\ is_zero y = true) ->
  ~ (is_zero x = true /\ F32.is_finite y = false) ->
  F32.is_nan (F32.mul x y) = false.
Proof.
  intros Hx Hy Hnx Hny H1 H2.
  destruct (F32.is_finite y) eqn:Hfy.
  - apply mul_finite_not_nan; [done|done|done|done|].
    destruct (F32.is_finite x) eqn:Hfx; [by left|right].
    split; intros ->; by apply H1.
  - destruct y as [sy|sy| |sy my ey]; try done.
    destruct x as [sx|sx| |sx mx ex]; try done.
    exfalso. by apply H2.
Qed.

(** [blend_is_number] is what it says, for the blend of a sample: the
    blend is not NaN exactly then. *)
Lemma blend_is_number_spec (s : Z) strength denoised :
  int16 s ->
  F32.valid strength = true -> F32.valid denoised = true ->
  blend_is_number strength (s16_to_float s) denoised <->
  F32.is_nan (blend strength (s16_to_float s) denoised) = false.
Proof.
  intros Hs Hst Hd.
  destruct (s16_to_float_facts s Hs) as (Hv & Hf & _).
  pose proof (s16_to_float_small s Hs) as Hsmall.
  pose proof (sub_valid _ _ Hv Hd) as Hnrv.
  pose proof (sub_small_finite (s16_to_float s) denoised Hv Hd Hf) as Hnrf.
  unfold blend_is_number, blend. cbv zeta.
  set (original := s16_to_float s) in *. clearbody original.
  split.
  - intros (_ & Hnd & Hns & H1 & H2).
    apply sub_finite_not_nan; [done|].
    apply mul_not_nan; try done.
    + by apply sub_finite_not_nan.
    + intros [Hinf Hz]. apply H1. split; [|done].
      destruct (F32.is_finite denoised) eqn:Hdf; [|done].
      rewrite Hnrf in Hinf by done. done.
    + intros [Hz Hinf]. by apply H2.
  - intros Hn. split; [done|].
    destruct original as [so|so| |so mo eo]; try done;
      destruct denoised as [sd|sd| |sd md ed]; try done;
      destruct strength as [ss|ss| |ss ms es]; try done;
      repeat split; try done;
      try (intros [? ?]; done);
      try (by destruct so, sd);
      try (by destruct so, sd, ss);
      try (intros [_ Hz]; destruct (F32.sub _ _); done);
      destruct (F32.sub _ _); done.
Qed.

(** A blend that is a number can be requantised. *)
Lemma blend_is_number_requantized (s : Z) strength gateThreshold
    useSpectralGating denoised :
  int16 s -> F32.valid strength = true ->
  blend_is_number strength (s16_to_float s) denoised ->
  is_Some (float_to_s16 (enhance strength gateThreshold useSpectralGating
                           (s16_to_float s) denoised)).
Proof.
  intros Hs Hst Hb. pose proof Hb as (Hd & _).
  apply blend_is_number_spec in Hb; try done.
  destruct (s16_to_float_facts s Hs) as (Hv & _).
  assert (F32.valid (blend strength (s16_to_float s) denoised) = true) as Hbv.
  { unfold blend. cbv zeta. apply sub_valid; [done|].
    apply mul_valid; [|done]. by apply sub_valid. }
  destruct (gate_valid gateThreshold useSpectralGating _ Hbv Hb) as [Hv' Hn'].
  destruct (clamp_valid _ Hv' Hn') as [Hv'' Hn''].
  by apply float_to_s16_defined.
Qed.

(** At strength 0 a blend that can be requantised is the original sample:
    were the model output not finite, the blend would be NaN. *)
Lemma zero_strength_requantized (s : Z) gateThreshold denoised v :
  int16 s ->
  float_to_s16 (enhance F32.zero gateThreshold false (s16_to_float s)
                  denoised) = Some v ->
  v = toward_zero s.
Proof.
  intros Hs Hv.
  destruct (s16_to_float_facts s Hs) as (_ & Hf & _ & Hnz & _ & Hrt).
  unfold enhance in Hv. rewrite gate_off in Hv.
  destruct (F32.is_finite (F32.sub (s16_to_float s) denoised)) eqn:Hfin.
  - rewrite blend_zero_strength in Hv by done. congruence.
  - exfalso. unfold blend in Hv. cbv zeta in Hv.
    destruct (F32.sub (s16_to_float s) denoised) as [sn|sn| |sn mn en];
      try done;
      destruct (s16_to_float s) as [so|so| |so mo eo]; done.
Qed.

(** ** The whole call *)

Section Call.
Context {DenoiseState : Type}.
Variable rnnoise_process_frame :
  DenoiseState -> list float -> DenoiseState * (nat -> float).

Local Abbreviation process :=
  (process_audio_with_rnnoise rnnoise_process_frame).

Theorem process_never_out_of_fuel rnnoise_state samples numSamples sampleRate
    channels strength gateThreshold useSpectralGating :
  process rnnoise_state samples numSamples sampleRate channels
    strength gateThreshold useSpectralGating <> OutOfFuel.
Proof.
  unfold process_audio_with_rnnoise.
  destruct rnnoise_state as [st|]; [|done].
  destruct (channels <=? 0) eqn:Hc; [done|].
  destruct (numSamples <=? 0) eqn:Hn; [done|].
  match goal with
  | |- context [frame_loop ?f ?fuel ?spc ?c ?s ?t ?g ?fs ?st0 ?b ?tr] =>
      pose proof (frame_loop_fuel f spc c s t g fuel fs st0 b tr) as Hfuel;
      destruct (frame_loop f fuel spc c s t g fs st0 b tr)
        as [[[st' s'] tr']| |]
  end; [done|done|].
  exfalso. apply Hfuel; [|done].
  assert (0 <= numSamples ÷ channels) by (apply Z.quot_pos; lia).
  unfold RNNOISE_FRAME_SIZE. lia.
Qed.

(** A successful call leaves every position outside channel 0 of the
    processed frames as it was. *)
Lemma process_writes rnnoise_state samples numSamples sampleRate channels
    strength gateThreshold useSpectralGating r :
  process rnnoise_state samples numSamples sampleRate channels
    strength gateThreshold useSpectralGating = Returns r ->
  length (samples_out r) = length samples /\
  forall p : nat,
    (forall j, 0 <= j < numSamples ÷ channels -> Z.of_nat p <> j * channels) ->
    samples_out r !! p = samples !! p.
Proof.
  unfold process_audio_with_rnnoise. intros H.
  destruct rnnoise_state as [st|]; [|by simplify_eq].
  destruct (channels <=? 0) eqn:Hc; [by simplify_eq|].
  destruct (numSamples <=? 0) eqn:Hn; [by simplify_eq|].
  destruct (frame_loop _ _ _ _ _ _ _ _ _ _ _) as [[[st' s'] tr']| |] eqn:Hl;
    [|done|done].
  simplify_eq. simpl.
  by apply frame_loop_writes in Hl.
Qed.

Lemma frame_position_range samples_per_channel channels p :
  frame_position samples_per_channel channels p <->
  exists j, 0 <= j < samples_per_channel /\ p = j * channels.
Proof.
  unfold frame_position, RNNOISE_FRAME_SIZE. split.
  - intros (fs & i & Hfs & Hm & Hi & ->). exists (fs + i). lia.
  - intros (j & Hj & ->). exists (480 * (j / 480)), (j mod 480).
    pose proof (Z.div_mod j 480 ltac:(lia)).
    pose proof (Z.mod_pos_bound j 480 ltac:(lia)).
    assert (0 <= j / 480) by (apply Z.div_pos; lia).
    repeat split; try lia.
    rewrite Z.mul_comm. apply Z.mod_mul. lia.
Qed.

(** What a successful call computes: one call of the model for each frame,
    and each sample of channel 0 replaced by its requantised blend with the
    model's output for its position. *)
Theorem process_pointwise rnnoise_state samples numSamples sampleRate channels
    strength gateThreshold useSpectralGating r :
  process rnnoise_state samples numSamples sampleRate channels
    strength gateThreshold useSpectralGating = Returns r ->
  ret r = true ->
  (forall k : nat,
      is_Some (model_calls (trace r) !! k) <->
      RNNOISE_FRAME_SIZE * Z.of_nat k < numSamples ÷ channels) /\
  forall (k : nat) float_in denoised,
    model_calls (trace r) !! k = Some (float_in, denoised) ->
    (exists st0, snd (rnnoise_process_frame st0 float_in) = denoised) /\
    forall i : nat,
      let start := RNNOISE_FRAME_SIZE * Z.of_nat k in
      Z.of_nat i < Z.min RNNOISE_FRAME_SIZE (numSamples ÷ channels - start) ->
      let p := Z.to_nat ((start + Z.of_nat i) * channels) in
      exists s v,
        samples !! p = Some s /\
        float_in !! i = Some (s16_to_float s) /\
        float_to_s16 (enhance strength gateThreshold useSpectralGating
                        (s16_to_float s) (denoised i)) = Some v /\
        samples_out r !! p = Some v.
Proof.
  unfold process_audio_with_rnnoise. intros H Hret.
  destruct rnnoise_state as [st|]; [|by simplify_eq].
  destruct (channels <=? 0) eqn:Hc; [by simplify_eq|].
  destruct (numSamples <=? 0) eqn:Hn.
  { simplify_eq. simpl.
    assert (numSamples ÷ channels <= 0).
    { destruct (Z.eq_dec numSamples 0) as [->|]; [by rewrite Z.quot_0_l by lia|].
      rewrite <- (Z.opp_involutive numSamples), Z.quot_opp_l by lia.
      assert (0 <= - numSamples ÷ channels) by (apply Z.quot_pos; lia). lia. }
    unfold RNNOISE_FRAME_SIZE. split.
    - intros k. split; [by intros []|lia].
    - by intros. }
  destruct (frame_loop _ _ _ _ _ _ _ _ _ _ _) as [[[st' s'] tr']| |] eqn:Hl;
    [|done|done].
  simplify_eq. simpl.
  apply frame_loop_spec in Hl as (calls & Htr & Hcalls & Hpoint); [|lia|lia].
  assert (model_calls tr' = calls) as ->.
  { rewrite Htr. by destruct (sampleRate =? 48000). }
  split.
  - intros k. rewrite Hcalls. by rewrite Z.add_0_l.
  - intros k fin den Hk. destruct (Hpoint k fin den Hk) as [Hout Hpt].
    split; [done|]. intros i. specialize (Hpt i).
    cbv zeta in *. by rewrite !Z.add_0_l in Hpt.
Qed.

(** A call on a buffer that holds [numSamples] samples, with a model whose
    outputs on the frames of the pipeline can all be requantised, has no
    undefined behaviour and succeeds. *)
Theorem process_defined (I : DenoiseState -> Prop)
    (D : float -> float -> Prop) st samples numSamples sampleRate
    channels strength gateThreshold useSpectralGating :
  0 < channels ->
  numSamples <= Z.of_nat (length samples) ->
  numSamples ÷ channels + RNNOISE_FRAME_SIZE <= INT_MAX ->
  Forall int16 samples ->
  I st ->
  model_outputs rnnoise_process_frame I D ->
  (forall s d, int16 s -> D (s16_to_float s) d ->
     is_Some (float_to_s16 (enhance strength gateThreshold useSpectralGating
                              (s16_to_float s) d))) ->
  exists r,
    process (Some st) samples numSamples sampleRate channels
      strength gateThreshold useSpectralGating = Returns r /\
    ret r = true.
Proof.
  intros Hc Hlen Hmax Hall HI HD Hreq. unfold process_audio_with_rnnoise.
  destruct (channels <=? 0) eqn:Hc'; [lia|].
  destruct (numSamples <=? 0) eqn:Hn; [by eexists|].
  assert (0 <= numSamples ÷ channels) by (apply Z.quot_pos; lia).
  pose proof (Z.mul_quot_le numSamples channels ltac:(lia) ltac:(lia)).
  match goal with
  | |- context [frame_loop ?f ?fuel ?spc ?c ?s ?t ?g ?fs ?st0 ?b ?tr] =>
      destruct (frame_loop_defined f spc c s t g I D fuel Hc Hmax HD Hreq
                  fs st0 b tr) as [[[st' s'] tr'] ->]
  end; try done; try lia.
  - unfold RNNOISE_FRAME_SIZE. lia.
  - by eexists.
Qed.

End Call.

(** * The claims of the specification *)

Section Claims.
Context {DenoiseState : Type}.
Variable rnnoise_process_frame :
  DenoiseState -> list float -> DenoiseState * (nat -> float).

Local Abbreviation process :=
  (process_audio_with_rnnoise rnnoise_process_frame).

(** A call that returns fails exactly when the engine is absent or the
    channel count is not positive. *)
Lemma process_ret rnnoise_state samples numSamples sampleRate channels
    strength gateThreshold useSpectralGating r :
  process rnnoise_state samples numSamples sampleRate channels
    strength gateThreshold useSpectralGating = Returns r ->
  ret r = match rnnoise_state with
          | None => false
          | Some _ => negb (channels <=? 0)
          end.
Proof.
  unfold process_audio_with_rnnoise. intros H.
  destruct rnnoise_state as [st|]; [|by simplify_eq].
  destruct (channels <=? 0) eqn:Hc; [by simplify_eq|].
  destruct (numSamples <=? 0) eqn:Hn; [by simplify_eq|].
  destruct (frame_loop _ _ _ _ _ _ _ _ _ _ _) as [[[st' s'] tr']| |];
    by simplify_eq.
Qed.

(** C1: a successful call modifies only the channel-0 positions
    [(frame_start_sample + i) * channels] of its frames; the samples of the
    other channels, the remainder beyond the full channel groups and
    whatever lies behind a final partial frame stay as they were. *)
Theorem frame_effect_channel0 rnnoise_state samples numSamples sampleRate
    channels strength gateThreshold useSpectralGating r :
  process rnnoise_state samples numSamples sampleRate channels
    strength gateThreshold useSpectralGating = Returns r ->
  ret r = true ->
  length (samples_out r) = length samples /\
  (forall p : nat,
      ~ frame_position (numSamples ÷ channels) channels (Z.of_nat p) ->
      samples_out r !! p = samples !! p) /\
  (forall p : nat,
      Z.of_nat p mod channels <> 0 -> samples_out r !! p = samples !! p) /\
  (forall p : nat,
      (numSamples ÷ channels) * channels <= Z.of_nat p ->
      samples_out r !! p = samples !! p).
Proof.
  intros H Hret. pose proof (process_writes _ _ _ _ _ _ _ _ _ _ H) as [Hlen Hp].
  split; [done|].
  assert (forall p : nat,
            ~ frame_position (numSamples ÷ channels) channels (Z.of_nat p) ->
            samples_out r !! p = samples !! p) as Hframe.
  { intros p Hnot. apply Hp. intros j Hj Heq. apply Hnot.
    apply frame_position_range. by exists j. }
  split; [done|].
  unfold process_audio_with_rnnoise in H.
  destruct rnnoise_state as [st|]; [|by simplify_eq].
  destruct (channels <=? 0) eqn:Hc; [by simplify_eq|].
  split.
  - intros p Hmod. apply Hframe. rewrite frame_position_range.
    intros (j & _ & Heq). apply Hmod. rewrite Heq. apply Z.mod_mul. lia.
  - intros p Hge. apply Hframe. rewrite frame_position_range.
    intros (j & Hj & Heq). nia.
Qed.

(** C2, as amended: for a mono buffer of 960 samples at 48000 Hz with
    strength 1.0 and the gate off, the model is called twice and every output
    sample is the single-precision blend
    [original - (original - denoised)], clamped and requantised. *)
Theorem full_strength_output st samples gateThreshold r :
  Forall int16 samples ->
  (forall st float_in i,
      F32.valid (snd (rnnoise_process_frame st float_in) i) = true) ->
  process (Some st) samples 960 48000 1 F32.one gateThreshold false
    = Returns r ->
  length (model_calls (trace r)) = 2%nat /\
  forall (k : nat) float_in denoised,
    model_calls (trace r) !! k = Some (float_in, denoised) ->
    forall i : nat, (i < 480)%nat ->
      exists s,
        samples !! (480 * k + i)%nat = Some s /\
        samples_out r !! (480 * k + i)%nat =
        float_to_s16
          (clamp (F32.sub (s16_to_float s)
                    (F32.sub (s16_to_float s) (denoised i)))).
Proof.
  intros Hall Hvalid H.
  pose proof (process_ret _ _ _ _ _ _ _ _ _ H) as Hret. cbn in Hret.
  destruct (process_pointwise _ _ _ _ _ _ _ _ _ _ H Hret) as [Hcalls Hpoint].
  change (960 ÷ 1) with 960 in *. unfold RNNOISE_FRAME_SIZE in *.
  split.
  - assert (forall k : nat,
              (k < length (model_calls (trace r)))%nat <-> (k < 2)%nat) as Hk.
    { intros k. rewrite <- lookup_lt_is_Some, Hcalls. split; lia. }
    pose proof (proj2 (Hk 1%nat)). pose proof (proj1 (Hk 2%nat)). lia.
  - intros k fin den Hk i Hi.
    assert (is_Some (model_calls (trace r) !! k)) as Hsome by (by eexists).
    apply Hcalls in Hsome.
    destruct (Hpoint k fin den Hk) as [[st0 Hout] Hpt].
    destruct (Hpt i ltac:(lia)) as (s & v & Hs & _ & Hv & Hw).
    replace (Z.to_nat ((480 * Z.of_nat k + Z.of_nat i) * 1))
      with (480 * k + i)%nat in * by lia.
    exists s. split; [done|]. rewrite Hw, <- Hv.
    unfold enhance, blend. cbv zeta. rewrite gate_off, mul_one; [done|].
    apply sub_valid.
    + apply s16_to_float_facts. by eapply (Forall_lookup_1 int16).
    + rewrite <- Hout. apply Hvalid.
Qed.

(** C3, as amended: with strength 0.0 and the gate off, whatever the
    model answers, every call that has defined behaviour succeeds and has
    moved each sample it wrote one quantisation step toward zero, so to
    within 1 of the original, and left every other sample as it was; and
    the call has defined behaviour whenever the outputs of the model on the
    frames of the pipeline are finite. *)
Theorem zero_strength_near_identity st samples numSamples sampleRate channels
    gateThreshold :
  0 < channels ->
  Forall int16 samples ->
  (forall r,
      process (Some st) samples numSamples sampleRate channels
        F32.zero gateThreshold false = Returns r ->
      ret r = true /\
      forall (p : nat) s,
        samples !! p = Some s ->
        Z.abs (toward_zero s - s) <= 1 /\
        (frame_position (numSamples ÷ channels) channels (Z.of_nat p) ->
         samples_out r !! p = Some (toward_zero s)) /\
        (~ frame_position (numSamples ÷ channels) channels (Z.of_nat p) ->
         samples_out r !! p = Some s)) /\
  (forall I : DenoiseState -> Prop,
      numSamples <= Z.of_nat (length samples) ->
      numSamples ÷ channels + RNNOISE_FRAME_SIZE <= INT_MAX ->
      I st ->
      model_outputs rnnoise_process_frame I finite_output ->
      exists r,
        process (Some st) samples numSamples sampleRate channels
          F32.zero gateThreshold false = Returns r).
Proof.
  intros Hc Hall. split.
  - intros r Hr.
    assert (ret r = true) as Hret.
    { rewrite (process_ret _ _ _ _ _ _ _ _ _ Hr).
      by destruct (Z.leb_spec channels 0); [lia|]. }
    split; [done|]. intros p s Hs.
    split; [unfold toward_zero; lia|]. split.
    + intros (fs & i & Hfs & Hmod & Hi & Hp).
      destruct (process_pointwise _ _ _ _ _ _ _ _ _ _ Hr Hret) as [Hcalls Hpt].
      unfold RNNOISE_FRAME_SIZE in *.
      pose proof (Z.div_mod fs 480 ltac:(lia)) as Hdm. rewrite Hmod in Hdm.
      assert (0 <= fs / 480) by (apply Z.div_pos; lia).
      set (k := Z.to_nat (fs / 480)).
      assert (480 * Z.of_nat k = fs) as Hk by lia.
      destruct (proj2 (Hcalls k) ltac:(lia)) as [[fin den] Hcall].
      destruct (Hpt k fin den Hcall) as [_ Hpt'].
      destruct (Hpt' (Z.to_nat i) ltac:(lia)) as (s' & v & Hs' & _ & Hv & Hw).
      replace (Z.to_nat ((480 * Z.of_nat k + Z.of_nat (Z.to_nat i)) * channels))
        with p in * by lia.
      assert (s' = s) as -> by congruence.
      assert (int16 s) as Hint by (by eapply (Forall_lookup_1 int16)).
      apply zero_strength_requantized in Hv; [|done]. congruence.
    + intros Hnot. rewrite <- Hs.
      apply (process_writes _ _ _ _ _ _ _ _ _ _ Hr). intros j Hj Heq.
      apply Hnot. apply frame_position_range. by exists j.
  - intros I Hlen Hmax HI Hfin.
    destruct (process_defined rnnoise_process_frame I finite_output
                st samples numSamples sampleRate channels F32.zero
                gateThreshold false) as (r & Hr & _); try done.
    { intros s d Hs [Hd Hdf]. by apply enhance_requantized. }
    by exists r.
Qed.

(** C4: in a successful call with the gate on, every written sample whose
    blend (before the clamp) is below the threshold in magnitude is written
    as 0. *)
Theorem gated_sample_written_zero rnnoise_state samples numSamples sampleRate
    channels strength gateThreshold r :
  process rnnoise_state samples numSamples sampleRate channels
    strength gateThreshold true = Returns r ->
  ret r = true ->
  forall (k : nat) float_in denoised,
    model_calls (trace r) !! k = Some (float_in, denoised) ->
    forall (i : nat) s,
      let start := RNNOISE_FRAME_SIZE * Z.of_nat k in
      Z.of_nat i < Z.min RNNOISE_FRAME_SIZE (numSamples ÷ channels - start) ->
      let p := Z.to_nat ((start + Z.of_nat i) * channels) in
      samples !! p = Some s ->
      F32.ltb (F32.abs (blend strength (s16_to_float s) (denoised i)))
        gateThreshold = true ->
      samples_out r !! p = Some 0.
Proof.
  intros H Hret k fin den Hk i s start Hi p Hs Hgate.
  destruct (process_pointwise _ _ _ _ _ _ _ _ _ _ H Hret) as [_ Hpt].
  destruct (Hpt k fin den Hk) as [_ Hpt'].
  destruct (Hpt' i Hi) as (s' & v & Hs' & _ & Hv & Hw).
  fold start p in Hs', Hw. assert (s' = s) as -> by congruence.
  unfold enhance in Hv. rewrite gated_requantized in Hv by done. congruence.
Qed.

(** C5, as amended: whatever the model answers, of any magnitude, every
    call that has defined behaviour succeeds and every sample it has written
    lies in [-32768, 32767]; and the call has defined behaviour whenever
    every blend is a number: on the frames of the pipeline the model
    answers no NaN, the strength is not NaN, no output is infinite while
    the strength is zero, and the strength is not infinite while the
    difference of a sample and its output is zero. *)
Theorem requantized_in_int16_range st samples numSamples sampleRate channels
    strength gateThreshold useSpectralGating :
  0 < channels ->
  (forall r,
      process (Some st) samples numSamples sampleRate channels
        strength gateThreshold useSpectralGating = Returns r ->
      ret r = true /\
      forall p : nat,
        frame_position (numSamples ÷ channels) channels (Z.of_nat p) ->
        exists v, samples_out r !! p = Some v /\ -32768 <= v <= 32767) /\
  (forall I : DenoiseState -> Prop,
      numSamples <= Z.of_nat (length samples) ->
      numSamples ÷ channels + RNNOISE_FRAME_SIZE <= INT_MAX ->
      Forall int16 samples ->
      F32.valid strength = true ->
      I st ->
      model_outputs rnnoise_process_frame I (blend_is_number strength) ->
      exists r,
        process (Some st) samples numSamples sampleRate channels
          strength gateThreshold useSpectralGating = Returns r).
Proof.
  intros Hc. split.
  - intros r Hr.
    assert (ret r = true) as Hret.
    { rewrite (process_ret _ _ _ _ _ _ _ _ _ Hr).
      by destruct (Z.leb_spec channels 0); [lia|]. }
    split; [done|].
    intros p (fs & i & Hfs & Hmod & Hi & Hp).
    destruct (process_pointwise _ _ _ _ _ _ _ _ _ _ Hr Hret) as [Hcalls Hpt].
    unfold RNNOISE_FRAME_SIZE in *.
    pose proof (Z.div_mod fs 480 ltac:(lia)) as Hdm. rewrite Hmod in Hdm.
    assert (0 <= fs / 480) by (apply Z.div_pos; lia).
    set (k := Z.to_nat (fs / 480)).
    assert (480 * Z.of_nat k = fs) as Hk by lia.
    destruct (proj2 (Hcalls k) ltac:(lia)) as [[fin den] Hcall].
    destruct (Hpt k fin den Hcall) as [_ Hpt'].
    destruct (Hpt' (Z.to_nat i) ltac:(lia)) as (s' & v & Hs' & _ & Hv & Hw).
    replace (Z.to_nat ((480 * Z.of_nat k + Z.of_nat (Z.to_nat i)) * channels))
      with p in * by lia.
    exists v. split; [done|]. by apply float_to_s16_int16 in Hv.
  - intros I Hlen Hmax Hall Hsv HI Hmodel.
    destruct (process_defined rnnoise_process_frame I
                (blend_is_number strength) st samples numSamples sampleRate
                channels strength gateThreshold useSpectralGating)
      as (r & Hr & _); try done.
    { intros s d Hs Hb. by apply blend_is_number_requantized. }
    by exists r.
Qed.

(** C6: the codec is the specified asymmetric conversion:
    [s16_to_float s] is a number, not the negative zero, of exact value
    [s / 32768], and [float_to_s16 f] scales [f] by 32767.0 and maps
    results [>= 32767] to 32767, results [<= -32768] to -32768, and
    truncates the others toward zero. *)
Theorem sample_codec_spec :
  (forall s, int16 s ->
     F32.valid (s16_to_float s) = true /\
     F32.is_finite (s16_to_float s) = true /\
     s16_to_float s <> S754_zero true /\
     (F32.to_Q (s16_to_float s) == toNormalizedFloat s)%Q) /\
  (forall f, F32.valid f = true ->
     let scaled := F32.mul f F32.c32767 in
     (F32.is_finite scaled = true ->
      float_to_s16 f = Some (toInt16 (F32.to_Q scaled))) /\
     (scaled = S754_infinity false -> float_to_s16 f = Some 32767) /\
     (scaled = S754_infinity true -> float_to_s16 f = Some (-32768))).
Proof.
  split.
  - intros s Hs.
    destruct (s16_to_float_facts s Hs) as (Hv & Hf & Hu & Hnz & _).
    split; [done|]. split; [done|]. split; [done|].
    rewrite to_Q_units by done. rewrite Hu. unfold toNormalizedFloat, Qeq.
    cbn [Qnum Qden]. rewrite <- Z.mul_assoc. f_equal.
  - intros f Hf scaled. split; [|split].
    + intros Hfin. by apply float_to_s16_toInt16.
    + intros E. unfold float_to_s16. fold scaled. by rewrite E.
    + intros E. unfold float_to_s16. fold scaled. by rewrite E.
Qed.

(** C7, as amended: while the engine is present, every call with
    [channels <= 0] fails with InvalidChannelCount, without calling the
    model, and leaves the buffer unchanged. *)
Theorem invalid_channel_count st samples numSamples sampleRate channels
    strength gateThreshold useSpectralGating :
  channels <= 0 ->
  exists r,
    process (Some st) samples numSamples sampleRate channels
      strength gateThreshold useSpectralGating = Returns r /\
    ret r = false /\
    failure r = Some InvalidChannelCount /\
    samples_out r = samples /\
    state_out r = Some st /\
    model_calls (trace r) = [].
Proof.
  intros Hc. unfold process_audio_with_rnnoise.
  destruct (Z.leb_spec channels 0); [|lia]. by eexists.
Qed.

(** C8: while the engine is absent, every call fails with
    EngineUnavailable, without calling the model, and leaves the buffer
    unchanged. *)
Theorem engine_unavailable samples numSamples sampleRate channels
    strength gateThreshold useSpectralGating :
  exists r,
    process None samples numSamples sampleRate channels
      strength gateThreshold useSpectralGating = Returns r /\
    ret r = false /\
    failure r = Some EngineUnavailable /\
    samples_out r = samples /\
    state_out r = None /\
    model_calls (trace r) = [].
Proof. by eexists. Qed.

(** C9: with an engine present and [channels > 0], every call with
    [numSamples <= 0] succeeds without processing anything: the model is not
    called and the buffer is unchanged. *)
Theorem empty_chunk_no_op st samples numSamples sampleRate channels
    strength gateThreshold useSpectralGating :
  0 < channels -> numSamples <= 0 ->
  exists r,
    process (Some st) samples numSamples sampleRate channels
      strength gateThreshold useSpectralGating = Returns r /\
    ret r = true /\
    samples_out r = samples /\
    state_out r = Some st /\
    model_calls (trace r) = [].
Proof.
  intros Hc Hn. unfold process_audio_with_rnnoise.
  destruct (Z.leb_spec channels 0); [lia|].
  destruct (Z.leb_spec numSamples 0); [|lia]. by eexists.
Qed.

(** C10, as amended: while the engine is present, every call with
    [0 < numSamples < channels] succeeds with zero iterations of the frame
    loop: the model is not called and the buffer is unchanged. *)
Theorem short_chunk_no_op st samples numSamples sampleRate channels
    strength gateThreshold useSpectralGating :
  0 < numSamples < channels ->
  exists r,
    process (Some st) samples numSamples sampleRate channels
      strength gateThreshold useSpectralGating = Returns r /\
    ret r = true /\
    samples_out r = samples /\
    state_out r = Some st /\
    model_calls (trace r) = [].
Proof.
  intros Hn. unfold process_audio_with_rnnoise.
  destruct (Z.leb_spec channels 0); [lia|].
  destruct (Z.leb_spec numSamples 0); [lia|].
  rewrite Z.quot_small by lia. rewrite frame_loop_empty by lia.
  eexists. repeat split. simpl. by destruct (sampleRate =? 48000).
Qed.

End Claims.

(** ** Instances and counterexamples *)

Lemma frame_effect_channel0_witness :
  exists r,
    process_audio_with_rnnoise echo_model (Some 0%nat) [100; 200; 300; 400; 500]
      5 48000 2 F32.one F32.zero false = Returns r /\
    ret r = true /\
    samples_out r !! 1%nat = Some 200 /\
    samples_out r !! 4%nat = Some 500.
Proof.
  assert (exists r,
            process_audio_with_rnnoise echo_model (Some 0%nat)
              [100; 200; 300; 400; 500] 5 48000 2 F32.one F32.zero false
            = Returns r /\ ret r = true) as (r & E & Hret).
  { eexists. split; [vm_compute; reflexivity|reflexivity]. }
  exists r. split; [exact E|]. split; [exact Hret|].
  destruct (frame_effect_channel0 echo_model _ _ _ _ _ _ _ _ _ E Hret)
    as (_ & _ & Hother & Hrest).
  split.
  - rewrite (Hother 1%nat); [reflexivity|]. vm_compute. discriminate.
  - rewrite (Hrest 4%nat); [reflexivity|]. vm_compute. discriminate.
Defined.

(** C2, as stated, fails: with the original sample 16384 (0.5) and the
    model output 13107600 * 2^-32 (about 100 / 32767), the requantised
    model output is 100 but the sample written is 99, because
    [0.5 - (0.5 - denoised)] is not [denoised] in single precision. *)
Lemma full_strength_not_model_output :
  let denoised := S754_finite false 13107600 (-32) in
  ~ (forall r,
        process_audio_with_rnnoise (constant_model denoised) (Some 0%nat)
          (replicate 960 16384) 960 48000 1 F32.one F32.zero false
        = Returns r ->
        forall i : nat, (i < 960)%nat ->
          samples_out r !! i = float_to_s16 (clamp denoised)).
Proof.
  intros denoised H.
  assert (exists r,
            process_audio_with_rnnoise (constant_model denoised) (Some 0%nat)
              (replicate 960 16384) 960 48000 1 F32.one F32.zero false
            = Returns r /\ samples_out r !! 0%nat = Some 99) as (r & E & H0).
  { eexists. split; [vm_compute; reflexivity|reflexivity]. }
  specialize (H r E 0%nat ltac:(lia)). rewrite H0 in H. clear E H0.
  vm_compute in H. discriminate H.
Qed.

Lemma full_strength_output_witness :
  exists r,
    process_audio_with_rnnoise (constant_model F32.zero) (Some 0%nat)
      (replicate 960 1000) 960 48000 1 F32.one F32.zero false = Returns r /\
    length (model_calls (trace r)) = 2%nat.
Proof.
  assert (exists r,
            process_audio_with_rnnoise (constant_model F32.zero) (Some 0%nat)
              (replicate 960 1000) 960 48000 1 F32.one F32.zero false
            = Returns r) as (r & E).
  { eexists. vm_compute. reflexivity. }
  exists r. split; [exact E|].
  apply (full_strength_output (constant_model F32.zero) 0%nat
           (replicate 960 1000) F32.zero r).
  - apply Forall_replicate. unfold int16. lia.
  - intros st float_in i. reflexivity.
  - exact E.
Defined.

(** C3, as stated, fails: when the model answers with an infinity, the
    blend at strength 0.0 is NaN ([infinity * 0]), whose conversion to
    [int16_t] is undefined; no near-identity result exists. *)
Lemma zero_strength_infinite_model :
  ~ (exists r,
        process_audio_with_rnnoise (constant_model (S754_infinity false))
          (Some 0%nat) [100] 1 48000 1 F32.zero F32.zero false = Returns r /\
        forall s, [100] !! 0%nat = Some s ->
                  exists v, samples_out r !! 0%nat = Some v /\
                            Z.abs (v - s) <= 1).
Proof.
  intros (r & E & _). vm_compute in E. discriminate E.
Qed.

Lemma zero_strength_near_identity_witness :
  exists r,
    process_audio_with_rnnoise echo_model (Some 0%nat)
      [100; -200; 0] 3 48000 1 F32.zero F32.zero false = Returns r /\
    ret r = true /\
    forall (p : nat) s,
      [100; -200; 0] !! p = Some s ->
      Z.abs (toward_zero s - s) <= 1 /\
      (frame_position (3 ÷ 1) 1 (Z.of_nat p) ->
       samples_out r !! p = Some (toward_zero s)) /\
      (~ frame_position (3 ÷ 1) 1 (Z.of_nat p) ->
       samples_out r !! p = Some s).
Proof.
  destruct (zero_strength_near_identity echo_model 0%nat [100; -200; 0]
              3 48000 1 F32.zero) as [Hwritten Hdefined].
  - lia.
  - repeat constructor; unfold int16; lia.
  - destruct (Hdefined (fun _ => True)) as [r Hr].
    + simpl. lia.
    + vm_compute. discriminate.
    + exact I.
    + intros st float_in _ [_ Hframe]. split; [exact I|].
      intros i original Hi.
      destruct (Hframe i original Hi) as (s & Hs & ->).
      unfold echo_model. cbn [snd].
      rewrite (nth_lookup_Some _ _ _ _ Hi).
      destruct (s16_to_float_facts s Hs) as (Hv & Hf & _).
      split; [exact Hv|exact Hf].
    + exists r. split; [exact Hr|]. exact (Hwritten r Hr).
Defined.

(** The gate at work: at strength 0.0 the blend of the sample 1000 is the
    sample itself, about 0.03, below the threshold 0.5; with the gate on it
    is written as 0, with the gate off as 999. *)
Lemma gated_sample_written_zero_witness :
  (exists r,
      process_audio_with_rnnoise (constant_model F32.one) (Some 0%nat)
        [1000; 200] 2 48000 2 F32.zero (s16_to_float 16384) true
      = Returns r /\
      samples_out r !! 0%nat = Some 0) /\
  (exists r,
      process_audio_with_rnnoise (constant_model F32.one) (Some 0%nat)
        [1000; 200] 2 48000 2 F32.zero (s16_to_float 16384) false
      = Returns r /\
      samples_out r !! 0%nat = Some 999).
Proof.
  split.
  - assert (exists r float_in denoised,
              process_audio_with_rnnoise (constant_model F32.one) (Some 0%nat)
                [1000; 200] 2 48000 2 F32.zero (s16_to_float 16384) true
              = Returns r /\
              ret r = true /\
              model_calls (trace r) !! 0%nat = Some (float_in, denoised) /\
              F32.ltb (F32.abs (blend F32.zero (s16_to_float 1000)
                                  (denoised 0%nat)))
                (s16_to_float 16384) = true)
      as (r & fin & den & E & Hret & Hk & Hgate).
    { eexists _, _, _.
      split; [vm_compute; reflexivity|].
      split; [reflexivity|].
      split; [vm_compute; reflexivity|].
      vm_compute. reflexivity. }
    exists r. split; [exact E|].
    apply (gated_sample_written_zero (constant_model F32.one) (Some 0%nat)
             [1000; 200] 2 48000 2 F32.zero (s16_to_float 16384) r E Hret
             0%nat fin den Hk 0%nat 1000).
    + vm_compute. reflexivity.
    + reflexivity.
    + exact Hgate.
  - eexists. split; [vm_compute; reflexivity|reflexivity].
Defined.

(** C5, as stated, fails: the clamp lets NaN through. When the model
    answers with an infinity and the strength is 0.0 the blend is NaN, and
    the conversion of NaN to [int16_t] is undefined. *)
Lemma requantize_nan_undefined :
  ~ (exists r,
        process_audio_with_rnnoise (constant_model (S754_infinity true))
          (Some 0%nat) [0; 7] 2 48000 2 F32.zero F32.zero false = Returns r /\
        forall v, samples_out r !! 0%nat = Some v -> -32768 <= v <= 32767).
Proof.
  intros (r & E & _). vm_compute in E. discriminate E.
Qed.

(** An infinite output at a finite strength that is not zero: the blend
    is an infinity, which the clamp and the conversion saturate. *)
Lemma requantized_in_int16_range_witness :
  exists r,
    process_audio_with_rnnoise (constant_model (S754_infinity false))
      (Some 0%nat) [100; 7; -200; 7] 4 44100 2 (F32.of_Z 3) F32.zero true
      = Returns r /\
    ret r = true /\
    forall p : nat,
      frame_position (4 ÷ 2) 2 (Z.of_nat p) ->
      exists v, samples_out r !! p = Some v /\ -32768 <= v <= 32767.
Proof.
  destruct (requantized_in_int16_range (constant_model (S754_infinity false))
              0%nat [100; 7; -200; 7] 4 44100 2 (F32.of_Z 3) F32.zero true)
    as [Hwritten Hdefined].
  - lia.
  - destruct (Hdefined (fun _ => True)) as [r Hr].
    + simpl. lia.
    + vm_compute. discriminate.
    + repeat constructor; unfold int16; lia.
    + reflexivity.
    + exact I.
    + intros st float_in _ _. split; [exact I|].
      intros i original _. unfold constant_model. cbn [snd].
      split; [reflexivity|]. split; [reflexivity|]. split; [reflexivity|].
      split; intros [H1 H2]; discriminate.
    + exists r. split; [exact Hr|]. exact (Hwritten r Hr).
Defined.

Lemma sample_codec_spec_witness :
  (F32.is_finite (s16_to_float 0) = true /\
   (F32.to_Q (s16_to_float 0) == toNormalizedFloat 0)%Q) /\
  (F32.to_Q (s16_to_float 100) == toNormalizedFloat 100)%Q /\
  float_to_s16 (s16_to_float 100)
  = Some (toInt16 (F32.to_Q (F32.mul (s16_to_float 100) F32.c32767))) /\
  float_to_s16 (S754_infinity true) = Some (-32768).
Proof.
  split; [|split; [|split]].
  - destruct (proj1 sample_codec_spec 0) as (_ & Hf & _ & Hq).
    + unfold int16. lia.
    + split; [exact Hf|exact Hq].
  - apply (proj1 sample_codec_spec 100). unfold int16. lia.
  - apply (proj2 sample_codec_spec (s16_to_float 100)); reflexivity.
  - apply (proj2 sample_codec_spec (S754_infinity true)); reflexivity.
Defined.

(** C7, as stated, fails: the engine is checked first, so a call with
    [channels <= 0] made while the engine is absent fails with
    EngineUnavailable. *)
Lemma invalid_channels_engine_absent :
  ~ (exists r,
        process_audio_with_rnnoise echo_model None [1; 2; 3; 4] 4 48000 0
          F32.one F32.zero false = Returns r /\
        failure r = Some InvalidChannelCount).
Proof.
  intros (r & E & Hf). vm_compute in E. injection E as <-. discriminate Hf.
Qed.

Lemma invalid_channel_count_witness :
  exists r,
    process_audio_with_rnnoise echo_model (Some 0%nat) [1; 2; 3; 4] 4 48000
      (-2) F32.one F32.zero false = Returns r /\
    ret r = false /\
    failure r = Some InvalidChannelCount /\
    samples_out r = [1; 2; 3; 4] /\
    state_out r = Some 0%nat /\
    model_calls (trace r) = [].
Proof.
  apply (invalid_channel_count echo_model 0%nat [1; 2; 3; 4] 4 48000 (-2)).
  lia.
Defined.

Lemma empty_chunk_no_op_witness :
  exists r,
    process_audio_with_rnnoise echo_model (Some 0%nat) [1; 2; 3; 4] 0 48000
      2 F32.one F32.zero false = Returns r /\
    ret r = true /\
    samples_out r = [1; 2; 3; 4] /\
    state_out r = Some 0%nat /\
    model_calls (trace r) = [].
Proof.
  apply (empty_chunk_no_op echo_model 0%nat [1; 2; 3; 4] 0 48000 2); lia.
Defined.

(** C10, as stated, fails: a call with [0 < numSamples < channels] made
    while the engine is absent returns failure, not success. *)
Lemma short_chunk_engine_absent :
  ~ (exists r,
        process_audio_with_rnnoise echo_model None [7] 1 48000 2
          F32.one F32.zero false = Returns r /\
        ret r = true).
Proof.
  intros (r & E & Hret). vm_compute in E. injection E as <-. discriminate Hret.
Qed.

Lemma short_chunk_no_op_witness :
  exists r,
    process_audio_with_rnnoise echo_model (Some 0%nat) [7] 1 48000 2
      F32.one F32.zero false = Returns r /\
    ret r = true /\
    samples_out r = [7] /\
    state_out r = Some 0%nat /\
    model_calls (trace r) = [].
Proof.
  apply (short_chunk_no_op echo_model 0%nat [7] 1 48000 2). lia.
Defined.

(** * Further properties of the code *)

(** ** The codec *)

(** X1: the round trip through the codec is not the identity: it moves
    every sample one step toward zero and keeps 0. *)
Theorem codec_round_trip (s : Z) :
  int16 s -> float_to_s16 (s16_to_float s) = Some (s - Z.sgn s).
Proof. intros Hs. by apply s16_to_float_facts. Qed.

Lemma codec_round_trip_witness :
  float_to_s16 (s16_to_float (-32768)) = Some (-32768 - Z.sgn (-32768)).
Proof. apply (codec_round_trip (-32768)). unfold int16. lia. Defined.

(** X2: [float_to_s16] has a result, an [int16_t], for every float but
    NaN, for which the conversion is undefined. *)
Theorem float_to_s16_defined_unless_nan (f : float) :
  F32.valid f = true ->
  (F32.is_nan f = false ->
   exists v, float_to_s16 f = Some v /\ -32768 <= v <= 32767) /\
  (F32.is_nan f = true -> float_to_s16 f = None).
Proof.
  intros Hf. split.
  - intros Hn. destruct (float_to_s16_defined f Hf Hn) as [v Hv].
    exists v. split; [done|]. by apply float_to_s16_int16 in Hv.
  - by destruct f.
Qed.

Lemma float_to_s16_defined_unless_nan_witness :
  (exists v, float_to_s16 (S754_infinity true) = Some v /\
             -32768 <= v <= 32767).
Proof.
  apply (float_to_s16_defined_unless_nan (S754_infinity true)); reflexivity.
Defined.

(** ** The clamp and the gate *)

(** X3: the clamp is idempotent, its result is never above 1.0 nor below
    -1.0, and it lets NaN through. *)
Theorem clamp_idempotent_bounded (v : float) :
  clamp (clamp v) = clamp v /\
  F32.ltb F32.one (clamp v) = false /\
  F32.ltb (clamp v) (F32.opp F32.one) = false /\
  (F32.is_nan v = true -> clamp v = v).
Proof.
  assert (F32.is_nan v = true -> clamp v = v) as Hnan by (by destruct v).
  unfold clamp in *. cbv zeta in *.
  destruct (F32.ltb F32.one v) eqn:H1.
  - repeat split; try reflexivity. done.
  - destruct (F32.ltb v (F32.opp F32.one)) eqn:H2.
    + repeat split; try reflexivity. done.
    + rewrite H1, H2. repeat split; done.
Qed.

(** X4: a threshold that is not above zero (zero, negative or NaN) gates
    nothing. *)
Theorem gate_needs_positive_threshold gateThreshold useSpectralGating v :
  F32.ltb F32.zero gateThreshold = false ->
  gate gateThreshold useSpectralGating v = v.
Proof.
  intros H. unfold gate.
  replace (F32.ltb (F32.abs v) gateThreshold) with false;
    [by rewrite andb_false_r|].
  destruct gateThreshold as [st|st| |st mt et], v as [sv|sv| |sv mv ev];
    try done; try (by destruct st).
Qed.

Lemma gate_needs_positive_threshold_witness :
  gate (S754_zero false) true (s16_to_float 1) = s16_to_float 1.
Proof.
  apply (gate_needs_positive_threshold (S754_zero false) true). reflexivity.
Defined.

(** X5: at full strength a silent original sample is replaced by exactly
    the requantised model output. *)
Theorem full_strength_on_silence gateThreshold denoised :
  F32.valid denoised = true ->
  float_to_s16 (enhance F32.one gateThreshold false (s16_to_float 0) denoised)
  = float_to_s16 (clamp denoised).
Proof.
  intros Hd. unfold enhance, blend. cbv zeta. rewrite gate_off.
  change (s16_to_float 0) with (S754_zero false).
  rewrite mul_one by (by apply sub_valid).
  destruct denoised as [[]|[]| |sd md ed]; try reflexivity.
  unfold F32.sub, SFsub. by rewrite negb_involutive.
Qed.

Lemma full_strength_on_silence_witness :
  float_to_s16 (enhance F32.one F32.zero false (s16_to_float 0)
                  (s16_to_float 1234))
  = float_to_s16 (clamp (s16_to_float 1234)).
Proof. apply (full_strength_on_silence F32.zero). reflexivity. Defined.

(** ** The frame loop *)

Section LoopFacts.
Context {DenoiseState : Type}.
Variable rnnoise_process_frame :
  DenoiseState -> list float -> DenoiseState * (nat -> float).
Variables (samples_per_channel channels : Z).
Variables (strength gateThreshold : float) (useSpectralGating : bool).

Local Abbreviation frame_body :=
  (process_frame rnnoise_process_frame channels strength gateThreshold
     useSpectralGating).
Local Abbreviation loop fuel :=
  (frame_loop rnnoise_process_frame fuel samples_per_channel channels
     strength gateThreshold useSpectralGating).

(** The events already logged do not influence the loop. *)
Lemma frame_loop_trace fuel :
  forall frame_start_sample st samples tr,
    loop fuel frame_start_sample st samples tr =
    match loop fuel frame_start_sample st samples [] with
    | Returns (st', samples', tr') => Returns (st', samples', tr ++ tr')
    | Undefined => Undefined
    | OutOfFuel => OutOfFuel
    end.
Proof.
  induction fuel as [|fuel IH]; intros fs st samples tr;
    rewrite !(frame_loop_eq _ _ _ _ _ _ _ fs); cbv zeta;
    (destruct (fs <? samples_per_channel); [|by rewrite app_nil_r]);
    (destruct (Z.min _ _ <=? 0); [by rewrite app_nil_r|]);
    (destruct (process_frame _ _ _ _ _ _ _ _ _) as [[[st1 s1] call]|];
       [|done]);
    (destruct (INT_MAX <? _); [done|]); [done|].
  rewrite (IH _ _ _ (tr ++ [call])), (IH _ _ _ ([] ++ [call])).
  destruct (frame_loop _ _ _ _ _ _ _ _ _ _ _) as [[[st2 s2] tr2]| |];
    [|done|done].
  by rewrite <- app_assoc.
Qed.

(** The frame handed to the model has 480 floats, zero behind the samples
    of the frame, and the model is run on it from the current state. *)
Lemma process_frame_input frame_start_sample n st samples st' samples' call :
  0 <= n <= RNNOISE_FRAME_SIZE ->
  frame_body frame_start_sample n st samples = Some (st', samples', call) ->
  exists float_in denoised,
    call = Call_rnnoise_process_frame float_in denoised /\
    rnnoise_process_frame st float_in = (st', denoised) /\
    length float_in = Z.to_nat RNNOISE_FRAME_SIZE /\
    forall i : nat, n <= Z.of_nat i < RNNOISE_FRAME_SIZE ->
                    float_in !! i = Some F32.zero.
Proof.
  unfold process_frame, RNNOISE_FRAME_SIZE. intros Hn H.
  destruct (deinterleave _ _ _ _) as [read|] eqn:Hread; [|done]. simpl in H.
  destruct (rnnoise_process_frame _ _) as [st1 denoised] eqn:Hmodel.
  destruct (reinterleave _ _ _ _) as [s1|] eqn:Hre; [|done].
  simpl in H. simplify_eq.
  apply deinterleave_spec in Hread as [Hlen _].
  eexists _, denoised. split; [done|]. split; [done|]. split.
  - rewrite length_app, length_replicate, Hlen. lia.
  - intros i Hi. rewrite lookup_app_r by lia.
    apply lookup_replicate_2. lia.
Qed.

Lemma frame_loop_calls fuel :
  forall frame_start_sample st samples tr st' samples' tr',
    loop fuel frame_start_sample st samples tr = Returns (st', samples', tr') ->
    exists calls,
      model_calls tr' = model_calls tr ++ calls /\
      threaded rnnoise_process_frame st calls st' /\
      forall (k : nat) float_in denoised,
        calls !! k = Some (float_in, denoised) ->
        length float_in = Z.to_nat RNNOISE_FRAME_SIZE /\
        forall i : nat,
          Z.min RNNOISE_FRAME_SIZE
            (samples_per_channel
             - (frame_start_sample + RNNOISE_FRAME_SIZE * Z.of_nat k))
            <= Z.of_nat i < RNNOISE_FRAME_SIZE ->
          float_in !! i = Some F32.zero.
Proof.
  induction fuel as [|fuel IH]; intros fs st samples tr st' samples' tr' H;
    rewrite frame_loop_eq in H; cbv zeta in H;
    (destruct (fs <? samples_per_channel) eqn:Hlt;
       [|simplify_eq; exists []; rewrite app_nil_r; by repeat split]);
    (destruct (Z.min _ _ <=? 0) eqn:Hle;
       [simplify_eq; exists []; rewrite app_nil_r; by repeat split|]);
    (destruct (process_frame _ _ _ _ _ _ _ _ _) as [[[st1 s1] call]|] eqn:Hf;
       [|done]);
    (destruct (INT_MAX <? _); [done|]); [done|].
  apply process_frame_input in Hf
    as (fin & den & -> & Hmodel & Hfin & Hpad);
    [|unfold RNNOISE_FRAME_SIZE in *; lia].
  apply IH in H as (calls & Htr & Hth & Hrest).
  exists ((fin, den) :: calls). split; [|split].
  - rewrite Htr, model_calls_app. simpl. by rewrite <- app_assoc.
  - simpl. by rewrite Hmodel.
  - intros [|k] fin' den' Hk; simpl in Hk.
    + simplify_eq. split; [done|]. intros i Hi. apply Hpad.
      unfold RNNOISE_FRAME_SIZE in *. lia.
    + destruct (Hrest k fin' den' Hk) as [Hl Hz]. split; [done|].
      intros i Hi. apply Hz. unfold RNNOISE_FRAME_SIZE in *. lia.
Qed.

End LoopFacts.

(** ** The whole call, continued *)

Section CallFacts.
Context {DenoiseState : Type}.
Variable rnnoise_process_frame :
  DenoiseState -> list float -> DenoiseState * (nat -> float).

Local Abbreviation process :=
  (process_audio_with_rnnoise rnnoise_process_frame).

(** X6: the sample rate is only logged: two calls that differ in nothing
    but the sample rate have the same outcome, return value, buffer, engine
    state and calls of the model. *)
Theorem sample_rate_only_logged rnnoise_state samples numSamples
    sampleRate1 sampleRate2 channels strength gateThreshold useSpectralGating :
  match process rnnoise_state samples numSamples sampleRate1 channels
          strength gateThreshold useSpectralGating,
        process rnnoise_state samples numSamples sampleRate2 channels
          strength gateThreshold useSpectralGating with
  | Returns r1, Returns r2 => effect r1 = effect r2
  | Undefined, Undefined => True
  | OutOfFuel, OutOfFuel => True
  | _, _ => False
  end.
Proof.
  unfold process_audio_with_rnnoise.
  destruct rnnoise_state as [st|]; [|done].
  destruct (channels <=? 0); [done|].
  destruct (numSamples <=? 0); [done|].
  rewrite (frame_loop_trace _ _ _ _ _ _ _ _ _ _
             (if sampleRate1 =? 48000 then [] else _)).
  rewrite (frame_loop_trace _ _ _ _ _ _ _ _ _ _
             (if sampleRate2 =? 48000 then [] else _)).
  destruct (frame_loop _ _ _ _ _ _ _ _ _ _ []) as [[[st' s'] tr']| |];
    [|done|done].
  unfold effect. simpl. rewrite !model_calls_app.
  by destruct (sampleRate1 =? 48000), (sampleRate2 =? 48000).
Qed.

(** X7: a successful call hands the model one frame for every 480 samples
    of a channel, the last frame possibly partial; every frame has exactly
    480 floats, and the floats behind the samples of a partial frame are
    0.0. *)
Theorem model_input_frames rnnoise_state samples numSamples sampleRate
    channels strength gateThreshold useSpectralGating r :
  process rnnoise_state samples numSamples sampleRate channels
    strength gateThreshold useSpectralGating = Returns r ->
  ret r = true ->
  Z.of_nat (length (model_calls (trace r)))
  = (Z.max 0 (numSamples ÷ channels) + 479) / 480 /\
  forall (k : nat) float_in denoised,
    model_calls (trace r) !! k = Some (float_in, denoised) ->
    length float_in = 480%nat /\
    forall i : nat,
      Z.min 480 (numSamples ÷ channels - 480 * Z.of_nat k) <= Z.of_nat i < 480 ->
      float_in !! i = Some F32.zero.
Proof.
  intros H Hret.
  destruct (process_pointwise _ _ _ _ _ _ _ _ _ _ H Hret) as [Hcalls _].
  unfold RNNOISE_FRAME_SIZE in Hcalls. split.
  - set (L := length (model_calls (trace r))).
    assert (forall k : nat, (k < L)%nat <-> 480 * Z.of_nat k < numSamples ÷ channels)
      as Hk by (intros k; unfold L; by rewrite <- lookup_lt_is_Some, Hcalls).
    apply Z.div_unique with
      (r := Z.max 0 (numSamples ÷ channels) + 479 - 480 * Z.of_nat L).
    + left. pose proof (proj1 (Hk (L - 1)%nat)). pose proof (proj2 (Hk L)).
      destruct L as [|L']; lia.
    + lia.
  - unfold process_audio_with_rnnoise in H.
    destruct rnnoise_state as [st|]; [|by simplify_eq].
    destruct (channels <=? 0); [by simplify_eq|].
    destruct (numSamples <=? 0); [by simplify_eq|].
    destruct (frame_loop _ _ _ _ _ _ _ _ _ _ _) as [[[st' s'] tr']| |] eqn:Hl;
      [|done|done].
    simplify_eq. simpl.
    apply frame_loop_calls in Hl as (calls & Htr & _ & Hin).
    assert (model_calls tr' = calls) as ->.
    { rewrite Htr. by destruct (sampleRate =? 48000). }
    intros k fin den Hk. destruct (Hin k fin den Hk) as [Hlen Hpad].
    unfold RNNOISE_FRAME_SIZE in *. split; [done|].
    intros i Hi. apply Hpad. lia.
Qed.

(** X8: in a successful call the frames go to the model in order, each
    call starting from the state the previous one left; the state after the
    last frame is the engine state after the call. *)
Theorem model_state_threaded st samples numSamples sampleRate channels
    strength gateThreshold useSpectralGating r :
  process (Some st) samples numSamples sampleRate channels
    strength gateThreshold useSpectralGating = Returns r ->
  exists st',
    state_out r = Some st' /\
    threaded rnnoise_process_frame st (model_calls (trace r)) st'.
Proof.
  unfold process_audio_with_rnnoise. intros H.
  destruct (channels <=? 0); [simplify_eq; by exists st|].
  destruct (numSamples <=? 0); [simplify_eq; by exists st|].
  destruct (frame_loop _ _ _ _ _ _ _ _ _ _ _) as [[[st' s'] tr']| |] eqn:Hl;
    [|done|done].
  simplify_eq. simpl. exists st'. split; [done|].
  apply frame_loop_calls in Hl as (calls & Htr & Hth & _).
  assert (model_calls tr' = calls) as ->; [|done].
  rewrite Htr. by destruct (sampleRate =? 48000).
Qed.

(** X9: the function trusts [numSamples]: when the buffer does not hold the
    last sample of channel 0 that [numSamples] announces, the call has
    undefined behaviour (a read outside the buffer). *)
Theorem short_buffer_undefined st samples numSamples sampleRate channels
    strength gateThreshold useSpectralGating :
  0 < channels -> 0 < numSamples ÷ channels ->
  Z.of_nat (length samples) <= (numSamples ÷ channels - 1) * channels ->
  process_audio_with_rnnoise rnnoise_process_frame (Some st) samples
    numSamples sampleRate channels strength gateThreshold useSpectralGating
  = Undefined.
Proof.
  intros Hc Hspc Hshort.
  pose proof (process_never_out_of_fuel rnnoise_process_frame (Some st)
                samples numSamples sampleRate channels strength gateThreshold
                useSpectralGating) as Hfuel.
  destruct (process_audio_with_rnnoise _ _ _ _ _ _ _ _ _) as [r| |] eqn:H;
    [exfalso|done|done].
  assert (ret r = true) as Hret.
  { rewrite (process_ret _ _ _ _ _ _ _ _ _ _ H).
    by destruct (Z.leb_spec channels 0); [lia|]. }
  destruct (process_pointwise _ _ _ _ _ _ _ _ _ _ H Hret) as [Hcalls Hpt].
  unfold RNNOISE_FRAME_SIZE in *.
  set (spc := numSamples ÷ channels) in *.
  pose proof (Z.div_mod (spc - 1) 480 ltac:(lia)) as Hdm.
  pose proof (Z.mod_pos_bound (spc - 1) 480 ltac:(lia)) as Hmod.
  assert (0 <= (spc - 1) / 480) by (apply Z.div_pos; lia).
  set (k := Z.to_nat ((spc - 1) / 480)).
  destruct (proj2 (Hcalls k) ltac:(lia)) as [[fin den] Hcall].
  destruct (Hpt k fin den Hcall) as [_ Hpt'].
  destruct (Hpt' (Z.to_nat ((spc - 1) mod 480)) ltac:(lia))
    as (s & v & Hs & _).
  apply lookup_lt_Some in Hs.
  replace (480 * Z.of_nat k + Z.of_nat (Z.to_nat ((spc - 1) mod 480)))
    with (spc - 1) in Hs by lia.
  lia.
Qed.

(** X10: what a successful call writes: each sample of channel 0 of each
    frame is replaced by the requantised blend of itself with the output of
    the model, in its frame, for its position. *)
Theorem written_sample_is_requantized_blend rnnoise_state samples numSamples
    sampleRate channels strength gateThreshold useSpectralGating r :
  process rnnoise_state samples numSamples sampleRate channels
    strength gateThreshold useSpectralGating = Returns r ->
  ret r = true ->
  forall (k : nat) float_in denoised,
    model_calls (trace r) !! k = Some (float_in, denoised) ->
    forall i : nat,
      Z.of_nat i < Z.min 480 (numSamples ÷ channels - 480 * Z.of_nat k) ->
      exists s,
        samples !! Z.to_nat ((480 * Z.of_nat k + Z.of_nat i) * channels)
        = Some s /\
        float_in !! i = Some (s16_to_float s) /\
        samples_out r !! Z.to_nat ((480 * Z.of_nat k + Z.of_nat i) * channels)
        = float_to_s16 (enhance strength gateThreshold useSpectralGating
                          (s16_to_float s) (denoised i)).
Proof.
  intros H Hret k fin den Hk i Hi.
  destruct (process_pointwise _ _ _ _ _ _ _ _ _ _ H Hret) as [_ Hpt].
  destruct (Hpt k fin den Hk) as [_ Hpt']. unfold RNNOISE_FRAME_SIZE in Hpt'.
  destruct (Hpt' i Hi) as (s & v & Hs & Hin & Hv & Hw).
  exists s. by rewrite Hv.
Qed.

End CallFacts.

(** ** The JNI bridges *)

Section BridgeFacts.
Context {DenoiseState : Type}.
Variable rnnoise_process_frame :
  DenoiseState -> list float -> DenoiseState * (nat -> float).

Local Abbreviation process :=
  (process_audio_with_rnnoise rnnoise_process_frame).

(** A call that fails has touched neither the buffer nor the engine. *)
Lemma process_failure_unchanged rnnoise_state samples numSamples sampleRate
    channels strength gateThreshold useSpectralGating r :
  process rnnoise_state samples numSamples sampleRate channels
    strength gateThreshold useSpectralGating = Returns r ->
  ret r = false ->
  samples_out r = samples /\ state_out r = rnnoise_state /\
  model_calls (trace r) = [].
Proof.
  unfold process_audio_with_rnnoise. intros H Hret.
  destruct rnnoise_state as [st|]; [|by simplify_eq].
  destruct (channels <=? 0); [by simplify_eq|].
  destruct (numSamples <=? 0); [by simplify_eq|].
  destruct (frame_loop _ _ _ _ _ _ _ _ _ _ _) as [[[st' s'] tr']| |];
    by simplify_eq.
Qed.


(** X12: the direct bridge has no abort, and needs none: when it returns
    JNI_FALSE the memory of the buffer and the engine are as they were. *)
Theorem direct_bridge_failure_unchanged rnnoise_state samples size sampleRate
    channels strength gateThreshold useSpectralGating region st' tr :
  applyNativeFilterDirect rnnoise_process_frame rnnoise_state (Some samples)
    size sampleRate channels strength gateThreshold useSpectralGating
  = Returns (false, region, st', tr) ->
  region = Some samples /\ st' = rnnoise_state.
Proof.
  unfold applyNativeFilterDirect. cbv zeta. intros H.
  destruct (process_audio_with_rnnoise _ _ _ _ _ _ _ _ _) as [r| |] eqn:E;
    [|done|done].
  injection H as Hret <- <- _.
  destruct (process_failure_unchanged _ _ _ _ _ _ _ _ _ E Hret) as (-> & -> & _).
  done.
Qed.

(** X13: a region of fewer than two bytes holds no sample: with an engine
    and [channels > 0] both bridges return JNI_TRUE and leave the region and
    the engine alone. *)
Theorem bridge_tiny_region st samples is_copy size sampleRate channels
    strength gateThreshold useSpectralGating :
  size < 2 -> 0 < channels ->
  applyNativeFilterArray rnnoise_process_frame (Some st) samples
    (Some is_copy) size sampleRate channels strength gateThreshold
    useSpectralGating
  = Returns (BridgeResult true samples (Some st) [Pipeline LogV_empty_chunk])
  /\
  applyNativeFilterDirect rnnoise_process_frame (Some st) (Some samples)
    size sampleRate channels strength gateThreshold useSpectralGating
  = Returns (true, Some samples, Some st, [Pipeline LogV_empty_chunk]).
Proof.
  intros Hsize Hc.
  assert (size ÷ 2 <= 0) as Hn.
  { destruct (Z.le_gt_cases 0 size).
    - rewrite Z.quot_small; lia.
    - rewrite <- (Z.opp_involutive size), Z.quot_opp_l by lia.
      assert (0 <= - size ÷ 2) by (apply Z.quot_pos; lia). lia. }
  unfold applyNativeFilterArray, applyNativeFilterDirect,
    process_audio_with_rnnoise. cbv zeta.
  destruct (Z.leb_spec channels 0); [lia|].
  destruct (Z.leb_spec (size ÷ 2) 0); [|lia].
  by destruct is_copy.
Qed.

End BridgeFacts.

(** ** The engine lifecycle *)

Section LifecycleFacts.
Context {DenoiseState : Type} `{EqDecision DenoiseState}.
Implicit Types (hooks : list (hook DenoiseState))
  (tr : list (lifecycle_event DenoiseState)).

Lemma engine_discipline_app tr1 tr2 (alive : option DenoiseState) :
  engine_discipline alive (tr1 ++ tr2)
  = alive' ← engine_discipline alive tr1; engine_discipline alive' tr2.
Proof.
  revert alive. induction tr1 as [|e tr1 IH]; intros alive; [done|].
  destruct e; simpl; try apply IH.
  - by destruct (decide (alive = Some st)).
  - by destruct alive.
Qed.

Lemma run_hooks_app hooks1 hooks2 (rnnoise_state : option DenoiseState) :
  run_hooks (hooks1 ++ hooks2) rnnoise_state =
  (fst (run_hooks hooks2 (fst (run_hooks hooks1 rnnoise_state))),
   snd (run_hooks hooks1 rnnoise_state)
   ++ snd (run_hooks hooks2 (fst (run_hooks hooks1 rnnoise_state)))).
Proof.
  revert rnnoise_state.
  induction hooks1 as [|h hooks1 IH]; intros s; simpl.
  - by destruct (run_hooks hooks2 s).
  - destruct h as [created|].
    + destruct (JNI_OnLoad s created) as [[code s1] tr1]. rewrite IH.
      destruct (run_hooks hooks1 s1) as [s2 tr2]. simpl.
      by rewrite app_assoc.
    + destruct (JNI_OnUnload s) as [s1 tr1]. rewrite IH.
      destruct (run_hooks hooks1 s1) as [s2 tr2]. simpl.
      by rewrite app_assoc.
Qed.

(** Each hook on its own keeps the discipline, from the instance that
    [rnnoise_state] holds to the one it holds afterwards. *)
Lemma JNI_OnLoad_discipline (rnnoise_state created : option DenoiseState) :
  engine_discipline rnnoise_state (snd (JNI_OnLoad rnnoise_state created))
  = Some (snd (fst (JNI_OnLoad rnnoise_state created))).
Proof.
  unfold JNI_OnLoad.
  destruct rnnoise_state as [old|], created as [st|]; simpl;
    rewrite ?decide_True by done; done.
Qed.

Lemma JNI_OnUnload_discipline (rnnoise_state : option DenoiseState) :
  engine_discipline rnnoise_state (snd (JNI_OnUnload rnnoise_state))
  = Some (fst (JNI_OnUnload rnnoise_state)).
Proof.
  unfold JNI_OnUnload.
  destruct rnnoise_state as [old|]; simpl; rewrite ?decide_True by done; done.
Qed.

(** X14: however the host interleaves the two hooks, and whether or not
    the creations succeed, the library is used correctly, instance by
    instance: [rnnoise_destroy] is called only on the instance that is
    alive and [rnnoise_create] only while none is, so no instance leaks and
    none is destroyed twice; in the end the instance alive, if any, is the
    one that [rnnoise_state] holds. *)
Theorem hooks_keep_engine_discipline hooks :
  forall rnnoise_state : option DenoiseState,
    engine_discipline rnnoise_state (snd (run_hooks hooks rnnoise_state))
    = Some (fst (run_hooks hooks rnnoise_state)).
Proof.
  induction hooks as [|h hooks IH]; intros s; [done|].
  simpl. destruct h as [created|].
  - pose proof (JNI_OnLoad_discipline s created) as Hd.
    destruct (JNI_OnLoad s created) as [[code s1] tr1].
    specialize (IH s1). destruct (run_hooks hooks s1) as [s2 tr2].
    simpl in *. by rewrite engine_discipline_app, Hd.
  - pose proof (JNI_OnUnload_discipline s) as Hd.
    destruct (JNI_OnUnload s) as [s1 tr1].
    specialize (IH s1). destruct (run_hooks hooks s1) as [s2 tr2].
    simpl in *. by rewrite engine_discipline_app, Hd.
Qed.

(** X15: after an unload, or a load whose creation failed, as the last
    hook, whatever came before, every call of the pipeline fails with
    EngineUnavailable and leaves the buffer as it was. *)
Theorem no_processing_after_teardown
    (rnnoise_process_frame :
       DenoiseState -> list float -> DenoiseState * (nat -> float))
    hooks h (rnnoise_state : option DenoiseState)
    samples numSamples sampleRate channels strength gateThreshold
    useSpectralGating :
  h = OnUnload \/ h = OnLoad None ->
  exists r,
    process_audio_with_rnnoise rnnoise_process_frame
      (fst (run_hooks (hooks ++ [h]) rnnoise_state))
      samples numSamples sampleRate channels strength gateThreshold
      useSpectralGating = Returns r /\
    ret r = false /\
    failure r = Some EngineUnavailable /\
    samples_out r = samples.
Proof.
  intros Hh. rewrite run_hooks_app. cbn [fst].
  set (s1 := fst (run_hooks hooks rnnoise_state)).
  assert (fst (run_hooks [h] s1) = None) as ->.
  { destruct Hh as [-> | ->]; by destruct s1. }
  by eexists.
Qed.

End LifecycleFacts.

(** ** The range of the requantised samples *)

Module F32Bounds.
Import F32 F32Facts.

(** Rounding is monotone at the numbers of the grid: a value that is at
    most [N] units of the last place of its binade rounds to at most [N] of
    them. *)
Lemma binary_round_aux_bound (s : bool) (m : positive) (e N : Z) :
  e <= fexp prec emax (Zdigits2 (Zpos m) + e) ->
  Zdigits2 (Zpos m) + e <= 100 ->
  Zpos m <= N * 2 ^ (fexp prec emax (Zdigits2 (Zpos m) + e) - e) ->
  is_finite (binary_round_aux prec emax s (Zpos m) e loc_Exact) = true /\
  Z.abs (units (binary_round_aux prec emax s (Zpos m) e loc_Exact))
  <= N * 2 ^ (fexp prec emax (Zdigits2 (Zpos m) + e) + 149).
Proof.
  intros He Hde HN.
  set (d := Zdigits2 (Zpos m)) in *.
  assert (0 < d) as Hd by done.
  unfold binary_round_aux.
  pose proof (shr_fexp_canonical (Zpos m) e loc_Exact ltac:(lia) He) as H1.
  pose proof (shr_fexp_spec (Zpos m) e loc_Exact ltac:(lia)) as Hs1.
  pose proof (shr_fexp_round_bit (Zpos m) e ltac:(lia)) as Hbit.
  destruct (shr_fexp prec emax (Zpos m) e loc_Exact) as [r1 e1].
  cbn [fst snd] in Hs1, Hbit. cbv zeta in Hs1, Hbit. fold d in Hs1, Hbit.
  destruct H1 as (He1 & Hm1 & Hd1 & Hz1). fold d in He1, Hd1.
  destruct Hs1 as [_ Hm1v].
  rewrite <- He1 in *.
  assert (-149 <= e1 <= 76) as Hrange by (rewrite He1, fexp_eq; lia).
  replace (Z.max (e1 - e) 0) with (e1 - e) in Hm1v by lia.
  set (m2 := round_nearest_even (shr_m r1) (loc_of_shr_record r1)).
  pose proof (round_nearest_even_range (shr_m r1) (loc_of_shr_record r1))
    as Hm2. fold m2 in Hm2.
  assert (0 < 2 ^ (e1 - e)) as HP by (apply Z.pow_pos_nonneg; lia).
  assert (0 < N) as HNpos.
  { destruct (Z.lt_ge_cases 0 N) as [|Hle]; [done|exfalso].
    set (P := 2 ^ (e1 - e)) in *. clearbody P. nia. }
  (* the rounded mantissa is at most [N] *)
  assert (m2 <= N) as Hbound.
  { destruct (Z.eq_dec m2 (shr_m r1)) as [->|Hup].
    - pose proof (Z.mul_div_le (Zpos m) (2 ^ (e1 - e)) HP) as Hfl.
      rewrite <- Hm1v in Hfl.
      apply (Z.mul_le_mono_pos_r _ _ (2 ^ (e1 - e))); [done|lia].
    - assert (shr_r r1 = true) as Hr.
      { destruct (shr_r r1) eqn:Hr; [done|].
        exfalso. apply Hup. by apply rne_no_round_bit. }
      destruct (Hbit Hr) as [Hn Htb].
      pose proof (testbit_lower (Zpos m) (e1 - e - 1) ltac:(lia) ltac:(lia)
                    Htb) as Hlow.
      replace (e1 - e - 1 + 1) with (e1 - e) in Hlow by lia.
      rewrite <- Hm1v in Hlow.
      replace (e1 - e) with (1 + (e1 - e - 1)) in HN by lia.
      rewrite (Z.pow_add_r 2 1 (e1 - e - 1)), Z.pow_1_r in HN by lia.
      assert (0 < 2 ^ (e1 - e - 1)) as HK by (apply Z.pow_pos_nonneg; lia).
      assert (2 * shr_m r1 + 1 <= 2 * N); [|lia].
      apply (Z.mul_le_mono_pos_l _ _ (2 ^ (e1 - e - 1))); [done|lia]. }
  assert (Zdigits2 m2 + e1 <= 101) as Hd2.
  { destruct (Z.eq_dec (shr_m r1) 0) as [H0|Hnz].
    - assert (Zdigits2 m2 <= 1); [|lia].
      apply Zdigits2_lt_pow; [lia|]. change (2 ^ 1) with 2. lia.
    - specialize (Hd1 ltac:(lia)).
      assert (Zdigits2 m2 <= Zdigits2 (shr_m r1 + 1))
        by (apply Zdigits2_le; lia).
      pose proof (Zdigits2_succ (shr_m r1) Hm1). lia. }
  pose proof (shr_fexp_spec m2 e1 loc_Exact ltac:(lia)) as Hs2.
  destruct (shr_fexp prec emax m2 e1 loc_Exact) as [r2 e2].
  cbn [fst snd] in Hs2. cbv zeta in Hs2. destruct Hs2 as [He2 Hm2v].
  rewrite fexp_eq in He2, Hm2v.
  set (n2 := Z.max (Z.max (Zdigits2 m2 + e1 - 24) (-149) - e1) 0) in *.
  assert (0 < 2 ^ n2) as HP2 by (apply Z.pow_pos_nonneg; lia).
  pose proof (Z.mul_div_le m2 (2 ^ n2) HP2) as Hfl2.
  rewrite <- Hm2v in Hfl2.
  assert (0 <= shr_m r2)
    by (rewrite Hm2v; apply Z.div_pos; lia).
  assert (0 < 2 ^ (e1 + 149)) as HU by (apply Z.pow_pos_nonneg; lia).
  destruct (shr_m r2) as [|mf|mf] eqn:Hmf; [| |lia].
  - split; [done|]. cbn [units Z.abs]. nia.
  - destruct (Z.leb_spec e2 (emax - prec)) as [|Hgt];
      [|unfold emax, prec in Hgt; lia].
    split; [done|]. unfold units.
    replace (e2 + 149) with (n2 + (e1 + 149)) by lia.
    rewrite (Z.pow_add_r 2 n2 (e1 + 149)) by lia.
    set (P2 := 2 ^ n2) in *. set (U := 2 ^ (e1 + 149)) in *.
    clearbody P2 U.
    destruct s; cbn [cond_Zopp]; nia.
Qed.

Lemma Zdigits2_pos_sum (m : positive) (e : Z) :
  -149 <= e -> Zpos m * 2 ^ (e + 149) <= 2 ^ 149 ->
  Zpos (digits2_pos m) + e <= 1.
Proof.
  intros He Hm. pose proof (digits_pos_bounds m) as [Hlo _].
  set (d := Zpos (digits2_pos m)) in *. assert (0 < d) by done.
  destruct (Z.le_gt_cases (d + e) 1) as [|Hgt]; [done|exfalso].
  assert (2 ^ 150 <= 2 ^ (d - 1 + (e + 149)))
    by (apply Z.pow_le_mono_r; lia).
  rewrite Z.pow_add_r in * by lia.
  change (2 ^ 150) with (2 * 2 ^ 149) in *.
  assert (0 < 2 ^ (e + 149)) by (apply Z.pow_pos_nonneg; lia).
  assert (0 < 2 ^ 149) by (apply Z.pow_pos_nonneg; lia).
  set (P := 2 ^ (e + 149)) in *. set (U := 2 ^ 149) in *.
  set (L := 2 ^ (d - 1)) in *. clearbody P U L. nia.
Qed.

(** Scaling a float of magnitude at most 1 by [32767.0f] gives a float of
    magnitude at most 32767. *)
Lemma mul_c32767_bound (v : float) :
  valid v = true -> is_finite v = true ->
  Z.abs (units v) <= 2 ^ 149 ->
  is_finite (mul v c32767) = true /\
  Z.abs (units (mul v c32767)) <= 32767 * 2 ^ 149.
Proof.
  destruct v as [s|s| |s m e]; try done; intros Hv _ Hsmall.
  pose proof (valid_finite_bounds _ _ _ Hv) as (He & Hhi & _).
    assert (Zpos m * 2 ^ (e + 149) <= 2 ^ 149) as Hm.
    { unfold units in Hsmall. rewrite Z.abs_mul in Hsmall.
      assert (0 < 2 ^ (e + 149)) by (apply Z.pow_pos_nonneg; lia).
      rewrite (Z.abs_eq (2 ^ (e + 149))) in Hsmall by lia.
      by destruct s. }
    pose proof (Zdigits2_pos_sum m e ltac:(lia) Hm) as Hde.
    pose proof (digits_pos_bounds m) as [Hlo Hup].
    set (dm := Zpos (digits2_pos m)) in *. assert (0 < dm) by done.
    unfold mul, SFmul, c32767.
    set (P := (m * 16776704)%positive).
    pose proof (Zdigits2_mul m 16776704) as Hdlo.
    change (Zpos (digits2_pos 16776704)) with 24 in Hdlo.
    fold dm P in Hdlo.
    assert (Zdigits2 (Zpos P) <= dm + 24) as Hdhi.
    { apply Zdigits2_lt_pow; [lia|]. split; [lia|].
      unfold P. rewrite Pos2Z.inj_mul, Z.pow_add_r by lia.
      change (2 ^ 24) with 16777216. lia. }
    cbn [Zdigits2] in Hdhi.
    set (dP := Zpos (digits2_pos P)) in *.
    assert (fexp prec emax (Zdigits2 (Zpos P) + (e + -9))
            = Z.max (dP + e - 33) (-149)) as Hfexp.
    { rewrite fexp_eq. cbn [Zdigits2]. fold dP. lia. }
    set (e1 := Z.max (dP + e - 33) (-149)) in *.
    assert (-149 <= e1 <= -8) as He1 by lia.
    assert (e <= 0) as Hneg by lia.
    pose proof (binary_round_aux_bound (xorb s false) P (e + -9)
                  (32767 * 2 ^ (- e1))) as Hb.
    rewrite Hfexp in Hb.
    replace (32767 * 2 ^ (- e1) * 2 ^ (e1 + 149)) with (32767 * 2 ^ 149)
      in Hb.
    + apply Hb.
      * lia.
      * cbn [Zdigits2]. fold dP. lia.
      * rewrite <- Z.mul_assoc, <- Z.pow_add_r by lia.
        replace (- e1 + (e1 - (e + -9))) with (9 + - e) by lia.
        rewrite (Z.pow_add_r 2 9 (- e)) by lia.
        unfold P. rewrite Pos2Z.inj_mul.
        change (Zpos 16776704) with (32767 * 2 ^ 9).
        change (2 ^ 9) with 512.
        assert (Zpos m <= 2 ^ (- e)); [|lia].
        assert (0 < 2 ^ (e + 149)) as HPp by (apply Z.pow_pos_nonneg; lia).
        apply (Z.mul_le_mono_pos_r _ _ (2 ^ (e + 149))); [done|].
        rewrite <- (Z.pow_add_r 2 (- e) (e + 149)) by lia.
        by replace (- e + (e + 149)) with 149 by lia.
    + rewrite <- Z.mul_assoc, <- Z.pow_add_r by lia.
      by replace (- e1 + (e1 + 149)) with 149 by lia.
Qed.

End F32Bounds.

(** A float that the clamp has passed is requantised to a value between
    -32767 and 32767. *)
Lemma clamp_requantized_range (v : float) :
  F32.valid v = true -> F32.is_nan v = false ->
  exists z, float_to_s16 (clamp v) = Some z /\ -32767 <= z <= 32767.
Proof.
  intros Hv Hn. unfold clamp. cbv zeta.
  destruct (F32.ltb F32.one v) eqn:H1.
  { exists 32767. split; [vm_compute; reflexivity|lia]. }
  destruct (F32.ltb v (F32.opp F32.one)) eqn:H2.
  { exists (-32767). split; [vm_compute; reflexivity|lia]. }
  assert (F32.is_finite v = true) as Hf.
  { destruct v as [s|[]| |s m e]; done. }
  rewrite ltb_units in H1, H2 by done.
  apply Z.ltb_ge in H1, H2.
  change (F32.units F32.one) with (2 ^ 149) in H1.
  change (F32.units (F32.opp F32.one)) with (- 2 ^ 149) in H2.
  destruct (F32Bounds.mul_c32767_bound v Hv Hf ltac:(lia)) as [Hsf Hsb].
  assert (F32.valid (F32.mul v F32.c32767) = true) as Hsv
    by (by apply mul_valid).
  unfold float_to_s16. cbv zeta.
  rewrite !leb_units by done.
  change (F32.units F32.c32767) with (32767 * 2 ^ 149).
  change (F32.units (F32.opp F32.c32768)) with (- (32768 * 2 ^ 149)).
  assert (0 < 2 ^ 149) as HU by (apply Z.pow_pos_nonneg; lia).
  pose proof (to_int16_units (F32.mul v F32.c32767) Hsv Hsf) as Hti.
  set (U := 2 ^ 149) in *. clearbody U.
  destruct (Z.leb_spec (32767 * U) (F32.units (F32.mul v F32.c32767))).
  { exists 32767. split; [done|lia]. }
  destruct (Z.leb_spec (F32.units (F32.mul v F32.c32767)) (- (32768 * U)));
    [lia|].
  destruct Hti as (z & _ & Hz & Hr); [lia|].
  exists z. split; [done|lia].
Qed.

(** X16: the lower saturation value is never written: whatever the model
    and the parameters, the sample the pipeline writes for a position is
    never -32768. *)
Theorem written_sample_never_int16_min strength gateThreshold
    useSpectralGating original denoised z :
  F32.valid strength = true -> F32.valid original = true ->
  F32.valid denoised = true ->
  float_to_s16 (enhance strength gateThreshold useSpectralGating
                  original denoised) = Some z ->
  -32767 <= z <= 32767.
Proof.
  intros Hs Ho Hd. unfold enhance.
  set (b := blend strength original denoised).
  assert (F32.valid b = true) as Hb.
  { unfold b, blend. cbv zeta. apply sub_valid; [done|].
    apply mul_valid; [|done]. by apply sub_valid. }
  assert (F32.valid (gate gateThreshold useSpectralGating b) = true) as Hg
    by (unfold gate; by case_match).
  destruct (F32.is_nan (gate gateThreshold useSpectralGating b)) eqn:Hn.
  - destruct (gate _ _ _); done.
  - destruct (clamp_requantized_range _ Hg Hn) as (z' & -> & Hz).
    intros E. by simplify_eq.
Qed.

Lemma written_sample_never_int16_min_witness :
  float_to_s16 (enhance F32.one F32.zero false (s16_to_float (-32768))
                  (S754_infinity true)) = Some (-32767) /\
  -32767 <= -32767 <= 32767.
Proof.
  split; [vm_compute; reflexivity|].
  apply (written_sample_never_int16_min F32.one F32.zero false
           (s16_to_float (-32768)) (S754_infinity true) (-32767));
    vm_compute; reflexivity.
Defined.

(** ** Instances of the further properties *)

Lemma clamp_idempotent_bounded_witness : clamp S754_nan = S754_nan.
Proof.
  apply (proj2 (proj2 (proj2 (clamp_idempotent_bounded S754_nan)))).
  reflexivity.
Defined.

Lemma model_input_frames_witness :
  exists r,
    process_audio_with_rnnoise echo_model (Some 0%nat)
      [100; 200; 300; 400; 500] 5 48000 2 F32.one F32.zero false = Returns r /\
    Z.of_nat (length (model_calls (trace r)))
    = (Z.max 0 (5 ÷ 2) + 479) / 480.
Proof.
  assert (exists r,
            process_audio_with_rnnoise echo_model (Some 0%nat)
              [100; 200; 300; 400; 500] 5 48000 2 F32.one F32.zero false
            = Returns r /\ ret r = true) as (r & E & Hret).
  { eexists. split; [vm_compute; reflexivity|reflexivity]. }
  exists r. split; [exact E|].
  exact (proj1 (model_input_frames echo_model _ _ _ _ _ _ _ _ _ E Hret)).
Defined.

Lemma model_state_threaded_witness :
  exists r st',
    process_audio_with_rnnoise echo_model (Some 0%nat)
      [100; 200; 300; 400; 500] 5 48000 2 F32.one F32.zero false = Returns r /\
    state_out r = Some st' /\
    threaded echo_model 0%nat (model_calls (trace r)) st'.
Proof.
  assert (exists r,
            process_audio_with_rnnoise echo_model (Some 0%nat)
              [100; 200; 300; 400; 500] 5 48000 2 F32.one F32.zero false
            = Returns r) as (r & E).
  { eexists. vm_compute. reflexivity. }
  destruct (model_state_threaded echo_model _ _ _ _ _ _ _ _ _ E)
    as (st' & Hst & Hth).
  exists r, st'. split; [exact E|]. split; [exact Hst|exact Hth].
Defined.

Lemma short_buffer_undefined_witness :
  process_audio_with_rnnoise echo_model (Some 0%nat) [100; 200] 6 48000 2
    F32.one F32.zero false = Undefined.
Proof.
  apply (short_buffer_undefined echo_model 0%nat [100; 200] 6 48000 2).
  - lia.
  - vm_compute. reflexivity.
  - vm_compute. discriminate.
Defined.

Lemma written_sample_is_requantized_blend_witness :
  exists r s,
    process_audio_with_rnnoise (constant_model F32.zero) (Some 0%nat)
      [100; 200] 2 48000 1 (s16_to_float 16384) F32.zero false = Returns r /\
    [100; 200] !! Z.to_nat ((480 * Z.of_nat 0 + Z.of_nat 1) * 1) = Some s /\
    samples_out r !! Z.to_nat ((480 * Z.of_nat 0 + Z.of_nat 1) * 1)
    = float_to_s16 (enhance (s16_to_float 16384) F32.zero false
                      (s16_to_float s) F32.zero).
Proof.
  assert (exists r float_in,
            process_audio_with_rnnoise (constant_model F32.zero) (Some 0%nat)
              [100; 200] 2 48000 1 (s16_to_float 16384) F32.zero false
            = Returns r /\
            ret r = true /\
            model_calls (trace r) !! 0%nat
            = Some (float_in, fun _ : nat => F32.zero))
    as (r & fin & E & Hret & Hk).
  { eexists _, _.
    split; [vm_compute; reflexivity|].
    split; [reflexivity|]. vm_compute. reflexivity. }
  destruct (written_sample_is_requantized_blend (constant_model F32.zero)
              _ _ _ _ _ _ _ _ r E Hret 0%nat fin _ Hk 1%nat)
    as (s & Hs & _ & Hw).
  { vm_compute. reflexivity. }
  exists r, s. split; [exact E|]. split; [exact Hs|exact Hw].
Defined.


Lemma direct_bridge_failure_unchanged_witness :
  applyNativeFilterDirect echo_model None (Some [100; 200; 300])
    6 48000 1 F32.one F32.zero false
  = Returns (false, Some [100; 200; 300], None, [Pipeline LogE_state_null]) /\
  Some [100; 200; 300] = Some [100; 200; 300] /\
  @None nat = None.
Proof.
  split; [reflexivity|].
  apply (direct_bridge_failure_unchanged echo_model None [100; 200; 300]
           6 48000 1 F32.one F32.zero false (Some [100; 200; 300]) None
           [Pipeline LogE_state_null]).
  reflexivity.
Defined.

Lemma bridge_tiny_region_witness :
  applyNativeFilterArray echo_model (Some 0%nat) [100] (Some false) 1 48000 1
    F32.one F32.zero false
  = Returns (BridgeResult true [100] (Some 0%nat) [Pipeline LogV_empty_chunk])
  /\
  applyNativeFilterDirect echo_model (Some 0%nat) (Some [100]) 1 48000 1
    F32.one F32.zero false
  = Returns (true, Some [100], Some 0%nat, [Pipeline LogV_empty_chunk]).
Proof.
  apply (bridge_tiny_region echo_model 0%nat [100] false 1 48000 1); lia.
Defined.

Lemma no_processing_after_teardown_witness :
  exists r,
    process_audio_with_rnnoise echo_model
      (fst (run_hooks ([OnLoad (Some 0%nat)] ++ [OnUnload]) None))
      [100; 200] 2 48000 1 F32.one F32.zero false = Returns r /\
    ret r = false /\
    failure r = Some EngineUnavailable /\
    samples_out r = [100; 200].
Proof.
  apply (no_processing_after_teardown echo_model [OnLoad (Some 0%nat)]
           OnUnload None).
  left. reflexivity.
Defined.

(** The discipline tells the instances apart: the destruction of an
    instance that is no longer alive is refused, also while another one is
    alive. *)
Lemma engine_discipline_by_instance :
  engine_discipline (Some 0%nat)
    [Call_rnnoise_destroy 0%nat; Call_rnnoise_create (Some 1%nat);
     Call_rnnoise_destroy 0%nat] = None /\
  engine_discipline (Some 0%nat)
    [Call_rnnoise_destroy 0%nat; Call_rnnoise_create (Some 1%nat);
     Call_rnnoise_destroy 1%nat] = Some None.
Proof. split; reflexivity. Qed.

Lemma hooks_keep_engine_discipline_witness :
  engine_discipline (Some 7%nat)
    (snd (run_hooks
            [OnLoad (Some 1%nat); OnLoad None; OnUnload; OnLoad (Some 2%nat)]
            (Some 7%nat)))
  = Some (Some 2%nat).
Proof.
  exact (hooks_keep_engine_discipline
           [OnLoad (Some 1%nat); OnLoad None; OnUnload; OnLoad (Some 2%nat)]
           (Some 7%nat)).
Defined.
